(** * Meffec relay server: a shallow embedding of [Server/meffec_server.py]
      and [Server/data_models.py], and the properties of its routing,
      registry and liveness code.

    The server keeps one process-wide [ServerInformation] object and runs
    one coroutine per websocket plus one heartbeat coroutine.  The
    embedding is sequential: a handler runs from one suspension of its
    session's [recv] to the next without interleaving, and time advances
    only in [asyncio.sleep].  Python exceptions are explicit outcomes,
    objects live in a store indexed by their websocket, and every frame
    handed to a transport is appended to a log. *)

From stdpp Require Import base option list gmap strings.

(* ================================================================= *)
(** ** Python values and exceptions *)

(** What [json.loads] produces and [json.dumps] consumes.  [JNull] is
    Python's [None]; numbers are integers here. *)
#[local] Unset Elimination Schemes.
Inductive json : Type :=
  | JNull
  | JBool (b : bool)
  | JNum (n : Z)
  | JStr (s : string)
  | JList (items : list json)
  | JObj (fields : list (string * json)).
#[local] Set Elimination Schemes.

(** The exceptions the server code can raise. *)
Inductive exn : Type :=
  | KeyError | TypeError | AttributeError | ValueError | IndexError
  | ConnectionClosed.

Definition exn_eqb (a b : exn) : bool :=
  match a, b with
  | KeyError, KeyError | TypeError, TypeError
  | AttributeError, AttributeError | ValueError, ValueError
  | IndexError, IndexError | ConnectionClosed, ConnectionClosed => true
  | _, _ => false
  end.

(** How a call ends: it returns, it raises, or the embedding ran out of
    iterations (only loops can; see [for_client_total]). *)
Inductive outcome (A : Type) : Type :=
  | Return (a : A)
  | Raise (e : exn)
  | NoFuel.
Arguments Return {A} a.
Arguments Raise {A} e.
Arguments NoFuel {A}.

(** [d[key]] on a dict held as an association list. *)
Fixpoint dict_get (fields : list (string * json)) (key : string) : outcome json :=
  match fields with
  | [] => Raise KeyError
  | (k, v) :: rest => if String.eqb k key then Return v else dict_get rest key
  end.

(** [obj[key]] with a [str] key: only a dict can be subscripted so. *)
Definition getitem (obj : json) (key : string) : outcome json :=
  match obj with
  | JObj fields => dict_get fields key
  | _ => Raise TypeError
  end.

(** [obj == s] for a [str] constant [s]. *)
Definition eq_str (obj : json) (s : string) : bool :=
  match obj with
  | JStr t => String.eqb t s
  | _ => false
  end.

(* ================================================================= *)
(** ** [data_models.py] *)

Module MeffecClientType.
Inductive t : Type := APP | CONTROLLER | DEVICE.

Definition value (c : t) : string :=
  match c with
  | APP => "app"
  | CONTROLLER => "controller"
  | DEVICE => "device"
  end.

(** Members in definition order, as iterating the Enum class yields. *)
Definition members : list t := [APP; CONTROLLER; DEVICE].

Definition eqb (a b : t) : bool :=
  match a, b with
  | APP, APP | CONTROLLER, CONTROLLER | DEVICE, DEVICE => true
  | _, _ => false
  end.

Fixpoint first_match (cls : list t) (type_name : json) : option t :=
  match cls with
  | [] => None
  | client_type :: rest =>
      if eq_str type_name (value client_type) then Some client_type
      else first_match rest type_name
  end.

Definition get_client_type (type_name : json) : option t :=
  first_match members type_name.
End MeffecClientType.

Module CommunicationTypes.
Inductive t : Type :=
  AUTHENTICATION | DEVICE_ACTION | HEARTBEAT | INFORMATION | PLAY_EFFECT.

Definition value (c : t) : string :=
  match c with
  | AUTHENTICATION => "authentication"
  | DEVICE_ACTION => "device_action"
  | HEARTBEAT => "heartbeat"
  | INFORMATION => "information"
  | PLAY_EFFECT => "play_effect"
  end.
End CommunicationTypes.

Module InformationTypes.
Inductive t : Type := AVAILABLE_EFFECTS | CONNECTED_CLIENTS.

Definition value (c : t) : string :=
  match c with
  | AVAILABLE_EFFECTS => "available_effects"
  | CONNECTED_CLIENTS => "connected_clients"
  end.
End InformationTypes.

(** A websocket is known by its connection handle.  The dataclass
    [ConnectedMeffecClient] compares its fields, the first of which is
    the websocket, compared by identity; so two client objects are equal
    exactly when they are the same object, and a client object is named
    here by its websocket.  The record holds the two mutable fields. *)
Definition WebSocket : Type := nat.

Record ConnectedMeffecClient : Type := {
  type : option MeffecClientType.t;
  name : json
}.

(** [ConnectedMeffecClient(websocket, None, None)]. *)
Definition new_client : ConnectedMeffecClient :=
  {| type := None; name := JNull |}.

Definition get_controller_information (self : ConnectedMeffecClient) : outcome json :=
  match type self with
  | None => Raise AttributeError
  | Some t =>
      Return (JObj [("type", JStr (MeffecClientType.value t)); ("name", name self)])
  end.

Record ServerInformation : Type := {
  connected_clients : list WebSocket;
  available_effects : json;
  controller_client : option WebSocket
}.

(* ================================================================= *)
(** ** The process state and the effect monad *)

Record World : Type := {
  server_information : ServerInformation;
  objects : gmap nat ConnectedMeffecClient;  (* fields of the client objects *)
  closed : gset nat;                         (* transports that are closed *)
  wire : list (WebSocket * json);            (* frames sent, oldest first *)
  now : nat                                  (* the event loop's clock *)
}.

Definition M (A : Type) : Type := World -> outcome A * World.

Definition ret {A} (a : A) : M A := fun w => (Return a, w).
Definition lift {A} (r : outcome A) : M A := fun w => (r, w).

Definition bind {A B} (m : M A) (k : A -> M B) : M B :=
  fun w =>
    match m w with
    | (Return a, w') => k a w'
    | (Raise e, w') => (Raise e, w')
    | (NoFuel, w') => (NoFuel, w')
    end.

Notation "'let*' x ':=' m 'in' k" := (bind m (fun x => k))
  (at level 10, x name, m at level 100, k at level 200).
Notation "m ;;; k" := (bind m (fun _ => k))
  (at level 100, k at level 200, right associativity).

(** [try: body except E: handler]. *)
Definition try_except (body : M unit) (E : exn) (handler : M unit) : M unit :=
  fun w =>
    match body w with
    | (Raise e, w') => if exn_eqb e E then handler w' else (Raise e, w')
    | r => r
    end.

Definition clients_of (w : World) : list WebSocket :=
  connected_clients (server_information w).
Definition controller_of (w : World) : option WebSocket :=
  controller_client (server_information w).
Definition effects_of (w : World) : json :=
  available_effects (server_information w).

(** Reading a client object: one that was never written has the fields
    it was constructed with. *)
Definition client_of (w : World) (c : WebSocket) : ConnectedMeffecClient :=
  default new_client (objects w !! c).

Definition set_server_information (f : ServerInformation -> ServerInformation) : M unit :=
  fun w => (Return tt,
            {| server_information := f (server_information w);
               objects := objects w; closed := closed w;
               wire := wire w; now := now w |}).

Definition set_connected_clients (l : list WebSocket) : M unit :=
  set_server_information (fun s =>
    {| connected_clients := l;
       available_effects := available_effects s;
       controller_client := controller_client s |}).

Definition set_available_effects (e : json) : M unit :=
  set_server_information (fun s =>
    {| connected_clients := connected_clients s;
       available_effects := e;
       controller_client := controller_client s |}).

Definition set_controller_client (c : option WebSocket) : M unit :=
  set_server_information (fun s =>
    {| connected_clients := connected_clients s;
       available_effects := available_effects s;
       controller_client := c |}).

Definition set_client (c : WebSocket) (f : ConnectedMeffecClient -> ConnectedMeffecClient) : M unit :=
  fun w => (Return tt,
            {| server_information := server_information w;
               objects := <[c := f (client_of w c)]> (objects w);
               closed := closed w; wire := wire w; now := now w |}).

(** [await websocket.send(json.dumps(frame))]: raises on a closed
    transport, otherwise the frame goes out. *)
Definition send (websocket : WebSocket) (frame : json) : M unit :=
  fun w =>
    if bool_decide (websocket ∈ closed w) then (Raise ConnectionClosed, w)
    else (Return tt,
          {| server_information := server_information w;
             objects := objects w; closed := closed w;
             wire := wire w ++ [(websocket, frame)]; now := now w |}).

(** [await asyncio.sleep(interval)]. *)
Definition sleep (interval : nat) : M unit :=
  fun w => (Return tt,
            {| server_information := server_information w;
               objects := objects w; closed := closed w;
               wire := wire w; now := now w + interval |}).

(** [for client in server_information.connected_clients: body].  The
    list iterator keeps an index into the live list and stops when the
    index reaches its current length, so a body that removes an entry
    makes the loop pass over the entry that slides into its place. *)
Fixpoint for_client_from (fuel i : nat) (body : WebSocket -> M unit) : M unit :=
  fun w =>
    match clients_of w !! i with
    | None => (Return tt, w)
    | Some client =>
        match fuel with
        | O => (NoFuel, w)
        | S fuel' =>
            match body client w with
            | (Return _, w') => for_client_from fuel' (S i) body w'
            | (Raise e, w') => (Raise e, w')
            | (NoFuel, w') => (NoFuel, w')
            end
        end
    end.

Definition for_client (body : WebSocket -> M unit) : M unit :=
  fun w => for_client_from (length (clients_of w)) 0 body w.

(* ================================================================= *)
(** ** [meffec_server.py] *)

(** [str.split(sep)] for a non-empty separator: the text is cut at each
    occurrence of [sep], found left to right without overlap.  [skip]
    counts the characters of a matched separator still to be dropped and
    [acc] holds the current piece, reversed. *)
Fixpoint split_from (sep : string) (skip : nat) (acc : string) (s : string) : list string :=
  match s with
  | EmptyString => [String.rev acc]
  | String c rest =>
      match skip with
      | S k => split_from sep k acc rest
      | O =>
          if String.prefix sep s
          then String.rev acc :: split_from sep (String.length sep - 1) EmptyString rest
          else split_from sep 0 (String c acc) rest
      end
  end.

Definition split (s sep : string) : list string := split_from sep 0 EmptyString s.

(** [l[i]] on a list. *)
Definition list_index {A} (l : list A) (i : nat) : outcome A :=
  match l !! i with
  | Some x => Return x
  | None => Raise IndexError
  end.

Inductive HTTPStatus : Type := UNAUTHORIZED.

Definition newline : string := String (Ascii.ascii_of_nat 10) EmptyString.

Section Server.

(** [TOKEN = os.getenv("WEBSOCKET_TOKEN")]; the module refuses to load
    when it is unset, so below it is a string. *)
Variable TOKEN : string.

(** [QueryParameterProtocol.process_request]: [Return None] lets the
    handshake go on, a returned triple is sent as the HTTP response. *)
Definition process_request (path : string)
  : outcome (option (HTTPStatus * list (string * string) * string)) :=
  match list_index (split path "?token=$") 1 with
  | Return token =>
      if negb (String.eqb token TOKEN)
      then Return (Some (UNAUTHORIZED, [], "Invalid or missing token" +:+ newline))
      else Return None
  | Raise e => Raise e
  | NoFuel => NoFuel
  end.

End Server.

(** The envelope of a roster push. *)
Definition connected_clients_frame (roster : list json) : json :=
  JObj [("type", JStr (CommunicationTypes.value CommunicationTypes.INFORMATION));
        ("data", JObj [("type", JStr (InformationTypes.value InformationTypes.CONNECTED_CLIENTS));
                       ("data", JList roster)])].

(** The envelope of a catalog push. *)
Definition available_effects_frame (catalog : json) : json :=
  JObj [("type", JStr (CommunicationTypes.value CommunicationTypes.INFORMATION));
        ("data", JObj [("type", JStr (InformationTypes.value InformationTypes.AVAILABLE_EFFECTS));
                       ("data", catalog)])].

Definition device_action_frame (data : json) : json :=
  JObj [("type", JStr (CommunicationTypes.value CommunicationTypes.DEVICE_ACTION));
        ("data", data)].

Definition heartbeat_frame : json :=
  JObj [("type", JStr (CommunicationTypes.value CommunicationTypes.HEARTBEAT));
        ("data", JStr "*imagine a heartbeat sound effect here*")].

(** The list comprehension of [send_connected_clients_to_controller]:
    its body only reads, so it is a map that stops at the first raise. *)
Fixpoint roster_of (w : World) (l : list WebSocket) : outcome (list json) :=
  match l with
  | [] => Return []
  | client :: rest =>
      match get_controller_information (client_of w client) with
      | Return info =>
          match roster_of w rest with
          | Return infos => Return (info :: infos)
          | r => r
          end
      | Raise e => Raise e
      | NoFuel => NoFuel
      end
  end.

Definition send_connected_clients_to_controller : M unit :=
  fun w =>
    match controller_of w with
    | None => (Return tt, w)
    | Some controller =>
        (let* roster := lift (roster_of w (clients_of w)) in
         send controller (connected_clients_frame roster)) w
    end.

Definition send_effects_to_app_client (client : WebSocket) : M unit :=
  fun w => send client (available_effects_frame (effects_of w)) w.

Definition has_type (w : World) (client : WebSocket) (t : MeffecClientType.t) : bool :=
  match type (client_of w client) with
  | Some t' => MeffecClientType.eqb t' t
  | None => false
  end.

Definition send_effects_to_all_connected_app_clients : M unit :=
  for_client (fun client w =>
    if has_type w client MeffecClientType.APP
    then send_effects_to_app_client client w
    else (Return tt, w)).

(** [list.remove(x)]: drops the first entry equal to [x]. *)
Fixpoint list_remove (x : WebSocket) (l : list WebSocket) : outcome (list WebSocket) :=
  match l with
  | [] => Raise ValueError
  | y :: rest =>
      if Nat.eqb y x then Return rest
      else match list_remove x rest with
           | Return rest' => Return (y :: rest')
           | r => r
           end
  end.

Definition remove_connected_client (client : WebSocket) : M unit :=
  fun w =>
    (let* l := lift (list_remove client (clients_of w)) in set_connected_clients l) w.

Definition disconnect_client (client : WebSocket) : M unit :=
  remove_connected_client client ;;;
  send_connected_clients_to_controller.

Definition authenticate_client (client : WebSocket) (message : json) : M unit :=
  let* type_name := lift (getitem message "type") in
  set_client client (fun c =>
    {| type := MeffecClientType.get_client_type type_name; name := name c |}) ;;;
  let* client_name := lift (getitem message "name") in
  set_client client (fun c => {| type := type c; name := client_name |}) ;;;
  (fun w =>
     if has_type w client MeffecClientType.CONTROLLER
     then set_controller_client (Some client) w
     else (Return tt, w)) ;;;
  (fun w =>
     if has_type w client MeffecClientType.APP
     then send_effects_to_app_client client w
     else (Return tt, w)) ;;;
  send_connected_clients_to_controller.

Definition process_information (message : json) : M unit :=
  let* info_type := lift (getitem message "type") in
  if eq_str info_type (InformationTypes.value InformationTypes.AVAILABLE_EFFECTS)
  then
    let* catalog := lift (getitem message "data") in
    set_available_effects catalog ;;;
    send_effects_to_all_connected_app_clients
  else ret tt.

(** The logging call evaluates [device_action["device"]] first; the
    payload [device_action["data"]] is looked up per device client. *)
Definition forward_device_action (device_action : json) : M unit :=
  let* _device := lift (getitem device_action "device") in
  for_client (fun client w =>
    if has_type w client MeffecClientType.DEVICE
    then (let* data := lift (getitem device_action "data") in
          send client (device_action_frame data)) w
    else (Return tt, w)).

Definition relay_message_to_all_clients (message : json) : M unit :=
  for_client (fun client =>
    try_except (send client message) ConnectionClosed
               (remove_connected_client client)).

Definition handle_message (client : WebSocket) (message : json) : M unit :=
  let* message_type := lift (getitem message "type") in
  if eq_str message_type (CommunicationTypes.value CommunicationTypes.AUTHENTICATION)
  then let* data := lift (getitem message "data") in authenticate_client client data
  else if eq_str message_type (CommunicationTypes.value CommunicationTypes.INFORMATION)
  then let* data := lift (getitem message "data") in process_information data
  else if eq_str message_type (CommunicationTypes.value CommunicationTypes.DEVICE_ACTION)
  then let* data := lift (getitem message "data") in forward_device_action data
  else relay_message_to_all_clients message.

(** One pass of the [for] loop of [send_heartbeat_to_all_clients]. *)
Definition heartbeat_pass : M unit :=
  for_client (fun client =>
    try_except (send client heartbeat_frame) ConnectionClosed
               (disconnect_client client)).

(** [send_heartbeat_to_all_clients], its [while True] cut after [ticks]
    rounds; a raise ends the coroutine. *)
Fixpoint send_heartbeat_to_all_clients (ticks : nat) (interval : nat) : M unit :=
  match ticks with
  | O => ret tt
  | S n => heartbeat_pass ;;; sleep interval ;;; send_heartbeat_to_all_clients n interval
  end.

(** *** [websocket_connection_handler] *)

(** Lines 75-76: the client object is built and appended. *)
Definition accept (websocket : WebSocket) : M unit :=
  set_client websocket (fun _ => new_client) ;;;
  (fun w => set_connected_clients (clients_of w ++ [websocket]) w).

(** The [finally] block. *)
Definition cleanup (client : WebSocket) : M unit :=
  (fun w =>
     if bool_decide (controller_of w = Some client)
     then set_controller_client None w
     else (Return tt, w)) ;;;
  disconnect_client client.

(** What [await websocket.recv()] gives the loop: a decoded message, or
    [ConnectionClosed] once the peer is gone. *)
Inductive received : Type :=
  | Message (message : json)
  | Gone.

(** Whether the handler is still in its [while True] loop. *)
Inductive session : Type := Running | Ended.

(** One turn of the handler on what [recv] delivers.  [Return Running]:
    the loop goes on.  [Return Ended]: the coroutine returned, after the
    [except] clause and the [finally] block.  [Raise e]: the coroutine
    died with [e], after the [finally] block ran. *)
Definition websocket_connection_handler (client : WebSocket) (r : received) : M session :=
  fun w =>
    let body := match r with
                | Message message => handle_message client message w
                | Gone => (Raise ConnectionClosed, w)
                end in
    match body with
    | (Return _, w') => (Return Running, w')
    | (NoFuel, w') => (NoFuel, w')
    | (Raise e, w') =>
        match cleanup client w' with
        | (Return _, w'') =>
            if exn_eqb e ConnectionClosed then (Return Ended, w'')
            else (Raise e, w'')
        | (Raise e', w'') => (Raise e', w'')
        | (NoFuel, w'') => (NoFuel, w'')
        end
    end.

(* ================================================================= *)
(** ** Derived notions, example worlds and messages *)

(** The loop over a fixed list, for bodies that leave the registry alone. *)
Fixpoint for_each (l : list WebSocket) (body : WebSocket -> M unit) : M unit :=
  match l with
  | [] => ret tt
  | client :: rest => body client ;;; for_each rest body
  end.

(** [w] with more frames on the wire. *)
Definition add_wire (w : World) (frames : list (WebSocket * json)) : World :=
  {| server_information := server_information w;
     objects := objects w; closed := closed w;
     wire := wire w ++ frames; now := now w |}.

(** [message] is a dict whose ["type"] is the string [type_name] and
    whose ["data"] is [data]; other keys and the key order are free. *)
Definition envelope (message : json) (type_name : string) (data : json) : Prop :=
  getitem message "type" = Return (JStr type_name) /\
  getitem message "data" = Return data.

(** An [authentication] envelope with the given role and display name. *)
Definition authentication (message role client_name : json) : Prop :=
  exists data,
    envelope message "authentication" data /\
    getitem data "type" = Return role /\
    getitem data "name" = Return client_name.

(** An [information] envelope whose nested type is [info_type]. *)
Definition information (message info_type : json) (data : json) : Prop :=
  envelope message "information" data /\
  getitem data "type" = Return info_type.

(** A [device_action] envelope for device [device] with payload [payload]. *)
Definition device_action (message device payload : json) : Prop :=
  exists data,
    envelope message "device_action" data /\
    getitem data "device" = Return device /\
    getitem data "data" = Return payload.

(** What [authenticate_client] does up to its last line, for a role the
    enumeration maps to [t]. *)
Definition authenticated (w : World) (client : WebSocket)
    (t : option MeffecClientType.t) (client_name : json) : World :=
  {| server_information :=
       {| connected_clients := clients_of w;
          available_effects := effects_of w;
          controller_client :=
            match t with
            | Some MeffecClientType.CONTROLLER => Some client
            | _ => controller_of w
            end |};
     objects :=
       <[client := {| type := t; name := client_name |}]> (objects w);
     closed := closed w; wire := wire w; now := now w |}.

(** [w] with the stored catalog replaced. *)
Definition with_catalog (w : World) (catalog : json) : World :=
  {| server_information :=
       {| connected_clients := clients_of w;
          available_effects := catalog;
          controller_client := controller_of w |};
     objects := objects w; closed := closed w; wire := wire w; now := now w |}.

(** An [information] envelope of nested type [available_effects] that
    carries [catalog]. *)
Definition available_effects_update (message catalog : json) : Prop :=
  exists data,
    information message (JStr "available_effects") data /\
    getitem data "data" = Return catalog.

(** The sessions of type [t], in registry order. *)
Definition sessions_of_type (w : World) (t : MeffecClientType.t) : list WebSocket :=
  filter (fun c => has_type w c t = true) (clients_of w).

(** [w] with the registry replaced. *)
Definition with_clients (w : World) (l : list WebSocket) : World :=
  {| server_information :=
       {| connected_clients := l;
          available_effects := effects_of w;
          controller_client := controller_of w |};
     objects := objects w; closed := closed w; wire := wire w; now := now w |}.

Definition client_object (t : MeffecClientType.t) (n : string) : ConnectedMeffecClient :=
  {| type := Some t; name := JStr n |}.

(** A world with the given registry, controller reference, client
    objects and closed transports; nothing sent yet, clock at zero. *)
Definition world (registry : list WebSocket) (controller : option WebSocket)
    (objs : list (nat * ConnectedMeffecClient)) (dead : list nat) : World :=
  {| server_information :=
       {| connected_clients := registry;
          available_effects := JObj [];
          controller_client := controller |};
     objects := list_to_map objs;
     closed := list_to_set dead;
     wire := []; now := 0 |}.

(** The transport of [c] dies without a close frame. *)
Definition transport_dies (c : WebSocket) (w : World) : World :=
  {| server_information := server_information w;
     objects := objects w; closed := {[c]} ∪ closed w;
     wire := wire w; now := now w |}.

Definition authentication_message (role client_name : string) : json :=
  JObj [("type", JStr "authentication");
        ("data", JObj [("type", JStr role); ("name", JStr client_name)])].

Definition available_effects_message (catalog : json) : json :=
  JObj [("type", JStr "information");
        ("data", JObj [("type", JStr "available_effects"); ("data", catalog)])].

Definition connected_clients_message (roster : json) : json :=
  JObj [("type", JStr "information");
        ("data", JObj [("type", JStr "connected_clients"); ("data", roster)])].

Definition device_action_message (device : string) (payload : json) : json :=
  JObj [("type", JStr "device_action");
        ("data", JObj [("device", JStr device); ("data", payload)])].

Definition play_effect_message (category effect : string) : json :=
  JObj [("type", JStr "play_effect");
        ("data", JObj [("category", JStr category); ("name", JStr effect)])].

(** [server_information = data_models.ServerInformation([], {}, None)]
    at start-up. *)
Definition startup : World := world [] None [] [].

(** A controller [1], an app [2] and a device [3], all connected. *)
Definition stage : World :=
  world [1; 2; 3] (Some 1)
        [(1, client_object MeffecClientType.CONTROLLER "desk");
         (2, client_object MeffecClientType.APP "tablet");
         (3, client_object MeffecClientType.DEVICE "fogger")] [].

(** The stage with two devices, a strobe [2] and a fogger [3]. *)
Definition two_devices : World :=
  world [1; 2; 3] (Some 1)
        [(1, client_object MeffecClientType.CONTROLLER "desk");
         (2, client_object MeffecClientType.DEVICE "strobe");
         (3, client_object MeffecClientType.DEVICE "fogger")] [].

(** Two apps and a device, no controller. *)
Definition audience : World :=
  world [1; 2; 3] None
        [(1, client_object MeffecClientType.APP "left");
         (2, client_object MeffecClientType.APP "right");
         (3, client_object MeffecClientType.DEVICE "fogger")] [].

(** [sep in s]. *)
Fixpoint contains (s sep : string) : bool :=
  match s with
  | EmptyString => String.prefix sep EmptyString
  | String _ rest => String.prefix sep s || contains rest sep
  end.

(** What is left of a registry after a pass that removes each dead
    session it meets: the session after a removed one slides into its
    place, and the iterator steps over it. *)
Fixpoint sweep (dead : WebSocket -> bool) (l : list WebSocket) : list WebSocket :=
  match l with
  | [] => []
  | c :: rest =>
      if dead c then
        match rest with
        | [] => []
        | d :: rest' => d :: sweep dead rest'
        end
      else c :: sweep dead rest
  end.

(** The sessions such a pass gets a frame through to. *)
Fixpoint reached (dead : WebSocket -> bool) (l : list WebSocket) : list WebSocket :=
  match l with
  | [] => []
  | c :: rest =>
      if dead c then
        match rest with
        | [] => []
        | _ :: rest' => reached dead rest'
        end
      else c :: reached dead rest
  end.

Definition is_closed (w : World) (c : WebSocket) : bool :=
  bool_decide (c ∈ closed w).

(** The loops run on fuel; each of them has enough of it. *)
Definition ends {A} (m : M A) : Prop := forall w, (m w).1 <> NoFuel.

(** [w] with the clock set. *)
Definition with_clock (w : World) (t : nat) : World :=
  {| server_information := server_information w;
     objects := objects w; closed := closed w; wire := wire w; now := t |}.

(** The session has a type, that is, it has authenticated with a role
    name the enumeration knows. *)
Definition typed (w : World) (c : WebSocket) : Prop :=
  type (client_of w c) <> None.

(** The roster push cannot fail: there is no controller, or its
    transport is open and every session of the registry has a type. *)
Definition healthy (w : World) : Prop :=
  match controller_of w with
  | None => True
  | Some controller =>
      (controller ∉ closed w) /\ forall c, c ∈ clients_of w -> typed w c
  end.

(** [w] after the first lines of the [finally] block for [client]: the
    controller reference is dropped when it is [client]. *)
Definition forget_controller (w : World) (client : WebSocket) : World :=
  if bool_decide (controller_of w = Some client)
  then {| server_information :=
            {| connected_clients := clients_of w;
               available_effects := effects_of w;
               controller_client := None |};
          objects := objects w; closed := closed w; wire := wire w; now := now w |}
  else w.

(** [w] with the fields of one client object replaced. *)
Definition with_client (w : World) (client : WebSocket) (c : ConnectedMeffecClient) : World :=
  {| server_information := server_information w;
     objects := <[client := c]> (objects w);
     closed := closed w; wire := wire w; now := now w |}.

(** The character [?]. *)
Definition question_mark : Ascii.ascii := Ascii.ascii_of_nat 63.

(** [c in s] for a character [c]. *)
Fixpoint has_char (c : Ascii.ascii) (s : string) : bool :=
  match s with
  | EmptyString => false
  | String a rest => if Ascii.eqb a c then true else has_char c rest
  end.

(* ================================================================= *)
(** ** The controller: [Controller/data_structures.py],
       [Controller/websocket_handler.py], [Controller/models.py] and
       [Controller/scripts_handler.py]

    The operator's application, as far as it talks to the server and
    keeps the effects.  Qt is outside: a signal that is emitted is
    recorded with its arguments, the state of the socket is a field set
    from outside, and the names, descriptions and categories of effects
    are strings, as the dataclasses declare them. *)

Module Controller.

(** A script loaded as a module: the dict its [get_effect_info]
    returns, when it has the function, and whether its [run_effect]
    returns or raises an [Exception] with the given text, when it has
    that function. *)
Record ScriptModule : Type := {
  get_effect_info : option (list (string * string));
  run_effect : option (option string)
}.

(** A [Path] to a script, [parent/stem.py]. *)
Record Path : Type := { parent : string; stem : string }.

Module Effect.
Record t : Type := {
  name : string;
  description : string;
  module : ScriptModule;
  script_path : Path
}.

Definition get_app_data (self : t) : json :=
  JObj [("name", JStr (name self)); ("description", JStr (description self))].
End Effect.

Module EffectsCategory.
Record t : Type := { name : string; effects : list Effect.t }.

Definition get_app_data (self : t) : json :=
  JObj [("name", JStr (name self));
        ("effects", JList (map Effect.get_app_data (effects self)))].
End EffectsCategory.

Module DeviceAction.
Record t : Type := { device : string; data : json }.
End DeviceAction.

Module ConnectedMeffecClient.
Record t : Type := { type : json; name : json }.
End ConnectedMeffecClient.

(** *** [websocket_handler.py] *)

Inductive signal : Type :=
  | connection_status_changed (connected : bool)
  | connected_clients_received (clients : list ConnectedMeffecClient.t)
  | play_effect_received (category effect : string).

Record WebsocketHandler : Type := {
  connected : bool;        (* the socket is in [ConnectedState] *)
  outbox : list json;      (* text messages sent, oldest first *)
  log : list string;       (* the lines of the log model *)
  signals : list signal;   (* signals emitted, oldest first *)
  opened : list string;    (* addresses given to [websocket.open] *)
  timers : list nat        (* delays of the single-shot reconnects, in ms *)
}.

Definition add_log (line : string) (h : WebsocketHandler) : WebsocketHandler :=
  {| connected := connected h; outbox := outbox h; log := log h ++ [line];
     signals := signals h; opened := opened h; timers := timers h |}.

Definition emit (s : signal) (h : WebsocketHandler) : WebsocketHandler :=
  {| connected := connected h; outbox := outbox h; log := log h;
     signals := signals h ++ [s]; opened := opened h; timers := timers h |}.

(** [websocket.sendTextMessage(json.dumps(message))]: a socket that is
    not connected sends nothing. *)
Definition sendTextMessage (message : json) (h : WebsocketHandler) : WebsocketHandler :=
  if connected h
  then {| connected := connected h; outbox := outbox h ++ [message]; log := log h;
          signals := signals h; opened := opened h; timers := timers h |}
  else h.

(** [settings.value(...)] for the server URL and the token are
    arguments. *)
Definition connect_to_server (server_url token : string) (h : WebsocketHandler)
  : WebsocketHandler :=
  let final_address := server_url +:+ "/?token=$" +:+ token in
  let h := add_log ("Connecting to websocket URL " +:+ server_url +:+ ".") h in
  {| connected := connected h; outbox := outbox h; log := log h;
     signals := signals h; opened := opened h ++ [final_address];
     timers := timers h |}.


Definition on_server_disconnected (h : WebsocketHandler) : WebsocketHandler :=
  let h := emit (connection_status_changed false) h in
  let h := add_log
    "Disconnected from websocket server. Attempting reconnect in 3 seconds." h in
  {| connected := connected h; outbox := outbox h; log := log h;
     signals := signals h; opened := opened h; timers := timers h ++ [3000] |}.

(** What [for x in obj] goes through: the items of a list, the keys of
    a dict, the characters of a string. *)
Definition iterate (obj : json) : outcome (list json) :=
  match obj with
  | JList items => Return items
  | JObj fields => Return (map (fun kv => JStr kv.1) fields)
  | JStr s => Return (map (fun a => JStr (String a EmptyString)) (String.list_ascii_of_string s))
  | _ => Raise TypeError
  end.

(** The list comprehension of [parse_connected_clients]. *)
Fixpoint parse_clients (items : list json) : outcome (list ConnectedMeffecClient.t) :=
  match items with
  | [] => Return []
  | client :: rest =>
      match getitem client "type" with
      | Return client_type =>
          match getitem client "name" with
          | Return client_name =>
              match parse_clients rest with
              | Return parsed =>
                  Return ({| ConnectedMeffecClient.type := client_type;
                             ConnectedMeffecClient.name := client_name |} :: parsed)
              | r => r
              end
          | Raise e => Raise e
          | NoFuel => NoFuel
          end
      | Raise e => Raise e
      | NoFuel => NoFuel
      end
  end.

(** [sep.join(items)]: every item has to be a [str]. *)
Fixpoint join (sep : string) (items : list json) : outcome string :=
  match items with
  | [] => Return EmptyString
  | JStr s :: rest =>
      match rest with
      | [] => Return s
      | _ :: _ =>
          match join sep rest with
          | Return joined => Return (s +:+ sep +:+ joined)
          | r => r
          end
      end
  | _ :: _ => Raise TypeError
  end.

Definition parse_connected_clients (connected_clients : json) (h : WebsocketHandler)
  : outcome unit * WebsocketHandler :=
  match iterate connected_clients with
  | Return items =>
      match parse_clients items with
      | Return parsed =>
          match join ", " (map ConnectedMeffecClient.name parsed) with
          | Return names =>
              let h := add_log ("Received connected clients: " +:+ names +:+ ".") h in
              (Return tt, emit (connected_clients_received parsed) h)
          | Raise e => (Raise e, h)
          | NoFuel => (NoFuel, h)
          end
      | Raise e => (Raise e, h)
      | NoFuel => (NoFuel, h)
      end
  | Raise e => (Raise e, h)
  | NoFuel => (NoFuel, h)
  end.

Definition process_information_data (information : json) (h : WebsocketHandler)
  : outcome unit * WebsocketHandler :=
  match getitem information "type" with
  | Return information_type =>
      if eq_str information_type "connected_clients"
      then match getitem information "data" with
           | Return connected_clients => parse_connected_clients connected_clients h
           | Raise e => (Raise e, h)
           | NoFuel => (NoFuel, h)
           end
      else (Return tt, h)
  | Raise e => (Raise e, h)
  | NoFuel => (NoFuel, h)
  end.

Section Signals.

(** How the binding turns a Python value into a [str] argument of the
    signal [Signal(str, str)]. *)
Variable to_str : json -> outcome string.

Definition on_message_received (message : json) (h : WebsocketHandler)
  : outcome unit * WebsocketHandler :=
  match getitem message "type" with
  | Return message_type =>
      if eq_str message_type "information"
      then match getitem message "data" with
           | Return information => process_information_data information h
           | Raise e => (Raise e, h)
           | NoFuel => (NoFuel, h)
           end
      else if eq_str message_type "play_effect"
      then match getitem message "data" with
           | Return data =>
               match getitem data "category" with
               | Return category =>
                   match getitem message "data" with
                   | Return data' =>
                       match getitem data' "name" with
                       | Return effect_name =>
                           match to_str category, to_str effect_name with
                           | Return c, Return n =>
                               (Return tt, emit (play_effect_received c n) h)
                           | Return _, Raise e => (Raise e, h)
                           | Raise e, _ => (Raise e, h)
                           | _, _ => (NoFuel, h)
                           end
                       | Raise e => (Raise e, h)
                       | NoFuel => (NoFuel, h)
                       end
                   | Raise e => (Raise e, h)
                   | NoFuel => (NoFuel, h)
                   end
               | Raise e => (Raise e, h)
               | NoFuel => (NoFuel, h)
               end
           | Raise e => (Raise e, h)
           | NoFuel => (NoFuel, h)
           end
      else (Return tt, h)
  | Raise e => (Raise e, h)
  | NoFuel => (NoFuel, h)
  end.

End Signals.

Definition send_effects_to_server (effect_categories : list EffectsCategory.t)
    (h : WebsocketHandler) : WebsocketHandler :=
  if negb (connected h)
  then add_log "Skipped sending effects to server as we're not connected." h
  else
    let h := add_log "Sending effects to server." h in
    let data_to_send := map EffectsCategory.get_app_data effect_categories in
    sendTextMessage
      (JObj [("type", JStr "information");
             ("data", JObj [("type", JStr "available_effects");
                            ("data", JList data_to_send)])]) h.

Definition send_device_action (device_action : DeviceAction.t) (h : WebsocketHandler)
  : WebsocketHandler :=
  if negb (connected h)
  then add_log "Skipped sending device action to server as we're not connected." h
  else
    let h := add_log ("Sending device action to " +:+
                      DeviceAction.device device_action +:+ ".") h in
    sendTextMessage
      (JObj [("type", JStr "device_action");
             ("data", JObj [("device", JStr (DeviceAction.device device_action));
                            ("data", DeviceAction.data device_action)])]) h.

(** *** [models.py]: the effects tree *)

(** An [EffectItem] with its children; the parent reference is left
    out. *)
#[local] Unset Elimination Schemes.
Inductive EffectItem : Type :=
  | Item (display_text : option string) (effect_data : option Effect.t)
         (children : list EffectItem).
#[local] Set Elimination Schemes.

Definition get_display_text (item : EffectItem) : option string :=
  match item with Item display_text _ _ => display_text end.

Definition get_effect_data (item : EffectItem) : option Effect.t :=
  match item with Item _ effect_data _ => effect_data end.

Definition get_children (item : EffectItem) : list EffectItem :=
  match item with Item _ _ children => children end.

(** The [root_item] that [setup_effects_tree] builds. *)
Definition setup_effects_tree (categories : list EffectsCategory.t) : EffectItem :=
  Item None None
    (map (fun category =>
            Item (Some (EffectsCategory.name category)) None
              (map (fun effect => Item (Some (Effect.name effect)) (Some effect) [])
                   (EffectsCategory.effects category)))
         categories).

(** *** [scripts_handler.py] *)

(** [effect_info[key]]. *)
Fixpoint info_get (effect_info : list (string * string)) (key : string) : option string :=
  match effect_info with
  | [] => None
  | (k, v) :: rest => if String.eqb k key then Some v else info_get rest key
  end.

(** How the loop over the categories ends: an [append] and [return], a
    [KeyError] on [effect_info["category"]], or the end of the list. *)
Inductive loop_end : Type :=
  | Appended (categories : list EffectsCategory.t)
  | MissingKey
  | Exhausted.

Fixpoint append_to_category (effect_info : list (string * string)) (effect : Effect.t)
    (categories : list EffectsCategory.t) : loop_end :=
  match categories with
  | [] => Exhausted
  | category :: rest =>
      match info_get effect_info "category" with
      | None => MissingKey
      | Some c =>
          if String.eqb (EffectsCategory.name category) c
          then Appended
                 ({| EffectsCategory.name := EffectsCategory.name category;
                     EffectsCategory.effects :=
                       EffectsCategory.effects category ++ [effect] |} :: rest)
          else match append_to_category effect_info effect rest with
               | Appended rest' => Appended (category :: rest')
               | e => e
               end
      end
  end.

Definition skipped (script_path : Path) : string :=
  "Could not find proper info keys for script " +:+ stem script_path +:+ ". Skipped.".

(** [add_effect_to_category]: the outcome, the categories after it and
    the lines it logs. *)
Definition add_effect_to_category (effect_info : list (string * string))
    (effects_categories : list EffectsCategory.t) (module : ScriptModule)
    (script_path : Path)
  : outcome unit * list EffectsCategory.t * list string :=
  match info_get effect_info "name" with
  | None => (Return tt, effects_categories, [skipped script_path])
  | Some name =>
      match info_get effect_info "description" with
      | None => (Return tt, effects_categories, [skipped script_path])
      | Some description =>
          let effect := {| Effect.name := name; Effect.description := description;
                           Effect.module := module; Effect.script_path := script_path |} in
          match append_to_category effect_info effect effects_categories with
          | Appended categories => (Return tt, categories, [])
          | MissingKey => (Return tt, effects_categories, [skipped script_path])
          | Exhausted =>
              match info_get effect_info "category" with
              | None => (Raise KeyError, effects_categories, [])
              | Some c =>
                  (Return tt,
                   effects_categories ++
                   [{| EffectsCategory.name := c; EffectsCategory.effects := [effect] |}],
                   [])
              end
          end
      end
  end.

(** [get_categories_from_scripts_folder], on the scripts that
    [folder.glob("*.py")] and [load_script_module] give, starting from
    the categories gathered so far. *)
Fixpoint gather (scripts : list (Path * ScriptModule))
    (effects_categories : list EffectsCategory.t)
  : outcome (list EffectsCategory.t) * list string :=
  match scripts with
  | [] => (Return effects_categories, [])
  | (script_path, module) :: rest =>
      match get_effect_info module with
      | Some effect_info =>
          match add_effect_to_category effect_info effects_categories module script_path with
          | (Return _, categories, lines) =>
              let '(r, lines') := gather rest categories in (r, lines ++ lines')
          | (Raise e, _, lines) => (Raise e, lines)
          | (NoFuel, _, lines) => (NoFuel, lines)
          end
      | None =>
          let '(r, lines') := gather rest effects_categories in
          (r, ("Could not load script " +:+ stem script_path +:+
               " because it has no get_effect_info function.") :: lines')
      end
  end.

Definition get_categories_from_scripts_folder (scripts : list (Path * ScriptModule))
  : outcome (list EffectsCategory.t) * list string :=
  gather scripts [].

(** [display_text == text], where the display text of the root is
    [None]. *)
Definition text_is (display_text : option string) (text : string) : bool :=
  match display_text with
  | Some t => String.eqb t text
  | None => false
  end.

(** The inner loop of [get_effect_by_category_and_name]: [Some r] when
    it returns [r], [None] when it runs to its end. *)
Fixpoint find_effect_item (items : list EffectItem) (name : string)
  : option (option Effect.t) :=
  match items with
  | [] => None
  | effect_item :: rest =>
      if text_is (get_display_text effect_item) name
      then Some (get_effect_data effect_item)
      else find_effect_item rest name
  end.

Fixpoint find_in_categories (items : list EffectItem) (category name : string)
  : option Effect.t :=
  match items with
  | [] => None
  | category_item :: rest =>
      if negb (text_is (get_display_text category_item) category)
      then find_in_categories rest category name
      else match find_effect_item (get_children category_item) name with
           | Some found => found
           | None => find_in_categories rest category name
           end
  end.

(** The effect found, [None] being Python's [None]. *)
Definition get_effect_by_category_and_name (root_item : EffectItem)
    (category name : string) : option Effect.t :=
  find_in_categories (get_children root_item) category name.

(** [run_effect_by_class]: the outcome and the lines it logs.  The
    argument is [None] when it is Python's [None]. *)
Definition run_effect_by_class (effect : option Effect.t) : outcome unit * list string :=
  match effect with
  | None => (Raise AttributeError, [])
  | Some effect =>
      match run_effect (Effect.module effect) with
      | Some result =>
          let running := "Running effect " +:+ Effect.name effect +:+ "." in
          match result with
          | None => (Return tt, [running])
          | Some error =>
              (Return tt,
               [running;
                "Could not run effect " +:+ Effect.name effect +:+ ": " +:+ error])
          end
      | None =>
          (Return tt,
           ["Could not run effect " +:+ Effect.name effect +:+
            " because it has no run_effect function."])
      end
  end.

Definition run_effect_by_category_and_name (root_item : EffectItem)
    (category name : string) : outcome unit * list string :=
  run_effect_by_class (get_effect_by_category_and_name root_item category name).

End Controller.

(** The effect is filed under the category [c]: the dict of its script
    gives its name and description and names [c] as its category. *)
Definition filed_under (c : string) (e : Controller.Effect.t) : Prop :=
  exists info,
    Controller.get_effect_info (Controller.Effect.module e) = Some info /\
    Controller.info_get info "name" = Some (Controller.Effect.name e) /\
    Controller.info_get info "description" = Some (Controller.Effect.description e) /\
    Controller.info_get info "category" = Some c.

(** A category that is not empty and holds only effects filed under its
    name. *)
Definition well_filed (category : Controller.EffectsCategory.t) : Prop :=
  Controller.EffectsCategory.effects category <> [] /\
  forall e, e ∈ Controller.EffectsCategory.effects category ->
            filed_under (Controller.EffectsCategory.name category) e.

(** The first effect of the list with the given name. *)
Fixpoint first_named (effects : list Controller.Effect.t) (name : string)
  : option Controller.Effect.t :=
  match effects with
  | [] => None
  | e :: rest =>
      if String.eqb (Controller.Effect.name e) name then Some e
      else first_named rest name
  end.

(** The first effect with the given name in the categories of the given
    name, in their order. *)
Fixpoint first_in_categories (categories : list Controller.EffectsCategory.t)
    (category name : string) : option Controller.Effect.t :=
  match categories with
  | [] => None
  | cat :: rest =>
      if String.eqb (Controller.EffectsCategory.name cat) category
      then match first_named (Controller.EffectsCategory.effects cat) name with
           | Some e => Some e
           | None => first_in_categories rest category name
           end
      else first_in_categories rest category name
  end.

(** The effect sits in a category named [c]. *)
Definition holds (categories : list Controller.EffectsCategory.t) (c : string)
    (e : Controller.Effect.t) : Prop :=
  exists cat, cat ∈ categories /\
              Controller.EffectsCategory.name cat = c /\
              e ∈ Controller.EffectsCategory.effects cat.

(** A controller application that is connected and has not sent,
    logged or emitted anything yet. *)
Definition desk : Controller.WebsocketHandler :=
  {| Controller.connected := true; Controller.outbox := []; Controller.log := [];
     Controller.signals := []; Controller.opened := []; Controller.timers := [] |}.

(** A binding that takes strings as they are and refuses other values. *)
Definition str_only (value : json) : outcome string :=
  match value with
  | JStr s => Return s
  | _ => Raise TypeError
  end.

(** The script [scripts/<stem>.py] whose [get_effect_info] returns the
    given dict and whose [run_effect] returns. *)
Definition script (stem : string) (info : list (string * string))
  : Controller.Path * Controller.ScriptModule :=
  ({| Controller.parent := "scripts"; Controller.stem := stem |},
   {| Controller.get_effect_info := Some info; Controller.run_effect := Some None |}).

Definition effect_info (name description category : string) : list (string * string) :=
  [("name", name); ("description", description); ("category", category)].

(** A scripts folder with two categories. *)
Definition folder : list (Controller.Path * Controller.ScriptModule) :=
  [script "rain" (effect_info "Rain" "Rain on the roof" "Weather");
   script "owl" (effect_info "Owl" "An owl at night" "Animals");
   script "storm" (effect_info "Storm" "Thunder far away" "Weather")].

(** The stage whose fogger gave a number as its name. *)
Definition numbered_stage : World :=
  with_client stage 3 {| type := Some MeffecClientType.DEVICE; name := JNum 7 |}.

(** The categories the controller holds before a scan adds to them. *)
Definition animals : list Controller.EffectsCategory.t :=
  [{| Controller.EffectsCategory.name := "Animals";
      Controller.EffectsCategory.effects :=
        [{| Controller.Effect.name := "Owl";
            Controller.Effect.description := "An owl at night";
            Controller.Effect.module := (script "owl" (effect_info "Owl" "An owl at night" "Animals")).2;
            Controller.Effect.script_path := (script "owl" (effect_info "Owl" "An owl at night" "Animals")).1 |}] |}].

(** A controller [1] and two apps, a tablet [2] and a phone [3]. *)
Definition two_apps : World :=
  world [1; 2; 3] (Some 1)
        [(1, client_object MeffecClientType.CONTROLLER "desk");
         (2, client_object MeffecClientType.APP "tablet");
         (3, client_object MeffecClientType.APP "phone")] [].

(** The sessions of a list that come before its first dead one. *)
Fixpoint before_dead (dead : WebSocket -> bool) (l : list WebSocket) : list WebSocket :=
  match l with
  | [] => []
  | c :: rest => if dead c then [] else c :: before_dead dead rest
  end.

(** No session of the list is dead. *)
Definition all_open (w : World) (l : list WebSocket) : bool :=
  forallb (fun c => negb (is_closed w c)) l.

(* ================================================================= *)
(** ** Loops over the registry *)

Lemma add_wire_nil w : add_wire w [] = w.
Proof. destruct w; unfold add_wire; simpl. by rewrite app_nil_r. Qed.

Lemma add_wire_app w xs ys : add_wire (add_wire w xs) ys = add_wire w (xs ++ ys).
Proof. unfold add_wire; simpl. by rewrite app_assoc. Qed.

Lemma send_open w c frame :
  c ∉ closed w -> send c frame w = (Return tt, add_wire w [(c, frame)]).
Proof. intros H. unfold send. by rewrite bool_decide_eq_false_2. Qed.

Lemma send_closed w c frame :
  c ∈ closed w -> send c frame w = (Raise ConnectionClosed, w).
Proof. intros H. unfold send. by rewrite bool_decide_eq_true_2. Qed.

Section ForClient.
Variable body : WebSocket -> M unit.

(** Enough fuel: a body that never adds a session and always ends
    leaves the loop with fuel to spare. *)
Hypothesis body_shrinks :
  forall c w, length (clients_of (body c w).2) <= length (clients_of w).
Hypothesis body_ends : forall c w, (body c w).1 <> NoFuel.

Lemma for_client_from_ends fuel : forall i w,
  length (clients_of w) <= fuel + i ->
  (for_client_from fuel i body w).1 <> NoFuel.
Proof.
  induction fuel as [|fuel IH]; intros i w Hlen; simpl.
  - destruct (clients_of w !! i) eqn:E; [|done].
    apply lookup_lt_Some in E. lia.
  - destruct (clients_of w !! i) as [c|] eqn:E; [|done].
    pose proof (body_shrinks c w) as Hs. pose proof (body_ends c w) as He.
    destruct (body c w) as [[a|e|] w']; simpl in *; try done.
    apply IH. lia.
Qed.

Lemma for_client_total w : (for_client body w).1 <> NoFuel.
Proof. unfold for_client. apply for_client_from_ends. lia. Qed.
End ForClient.

Section ForClientStable.
Variable body : WebSocket -> M unit.

(** A body that leaves the registry alone sees each session once, in
    registry order. *)
Hypothesis body_keeps : forall c w, clients_of (body c w).2 = clients_of w.

Lemma for_client_from_stable fuel : forall i w,
  length (clients_of w) <= fuel + i ->
  for_client_from fuel i body w = for_each (drop i (clients_of w)) body w.
Proof.
  induction fuel as [|fuel IH]; intros i w Hlen; simpl.
  - destruct (clients_of w !! i) eqn:E.
    + apply lookup_lt_Some in E. lia.
    + apply lookup_ge_None in E. by rewrite drop_ge.
  - destruct (clients_of w !! i) as [c|] eqn:E.
    + rewrite (drop_S _ _ _ E). simpl. unfold bind.
      pose proof (body_keeps c w) as Hk.
      destruct (body c w) as [[a|e|] w']; simpl in *; try done.
      rewrite IH by (rewrite Hk; lia). by rewrite Hk.
    + apply lookup_ge_None in E. by rewrite drop_ge.
Qed.

Lemma for_client_stable w :
  for_client body w = for_each (clients_of w) body w.
Proof. unfold for_client. rewrite for_client_from_stable by lia. by rewrite drop_0. Qed.
End ForClientStable.

(** A loop that sends one fixed frame to every session of one type.  As
    long as the transports of those sessions are open, each of them gets
    the frame, in registry order, and nothing else changes. *)
Lemma for_each_send (t : MeffecClientType.t) (frame : json) (body : WebSocket -> M unit)
    (w : World) (l : list WebSocket) :
  (forall c frames,
     body c (add_wire w frames) =
     if has_type w c t then send c frame (add_wire w frames)
     else (Return tt, add_wire w frames)) ->
  (forall c, c ∈ l -> has_type w c t = true -> c ∉ closed w) ->
  for_each l body w =
  (Return tt, add_wire w (map (fun c => (c, frame)) (filter (fun c => has_type w c t = true) l))).
Proof.
  intros Hbody Hopen.
  assert (forall sent,
    for_each l body (add_wire w sent) =
    (Return tt, add_wire w (sent ++ map (fun c => (c, frame))
                                        (filter (fun c => has_type w c t = true) l)))) as Hgen.
  { induction l as [|c l IH]; intros sent; simpl.
    - unfold ret. by rewrite app_nil_r.
    - unfold bind. rewrite Hbody, filter_cons.
      destruct (has_type w c t) eqn:Ht.
      + rewrite decide_True by done.
        rewrite send_open by (apply Hopen; [left | done]).
        rewrite add_wire_app, IH by (intros; apply Hopen; [by right | done]).
        simpl. by rewrite <- app_assoc.
      + rewrite decide_False by done.
        apply IH. intros; apply Hopen; [by right | done]. }
  specialize (Hgen []). by rewrite add_wire_nil in Hgen.
Qed.

(** Whatever the transports do, such a loop only ever puts that frame on
    the wire, for an initial stretch of the sessions of that type. *)
Lemma for_each_send_prefix (t : MeffecClientType.t) (frame : json) (body : WebSocket -> M unit)
    (w : World) (l : list WebSocket) :
  (forall c frames,
     body c (add_wire w frames) =
     if has_type w c t then send c frame (add_wire w frames)
     else (Return tt, add_wire w frames)) ->
  exists k,
    (for_each l body w).2 =
    add_wire w (map (fun c => (c, frame))
                    (take k (filter (fun c => has_type w c t = true) l))).
Proof.
  intros Hbody.
  assert (forall sent, exists k,
    (for_each l body (add_wire w sent)).2 =
    add_wire w (sent ++ map (fun c => (c, frame))
                            (take k (filter (fun c => has_type w c t = true) l)))) as Hgen.
  { induction l as [|c l IH]; intros sent; simpl.
    - exists 0. unfold ret. simpl. by rewrite app_nil_r.
    - unfold bind. rewrite Hbody, filter_cons.
      destruct (has_type w c t) eqn:Ht.
      + rewrite decide_True by done.
        destruct (decide (c ∈ closed w)) as [Hc|Hc].
        * rewrite send_closed by done. exists 0. simpl. by rewrite app_nil_r.
        * rewrite send_open by done.
          destruct (IH (sent ++ [(c, frame)])) as [k Hk].
          exists (S k). rewrite add_wire_app, Hk. simpl. by rewrite <- app_assoc.
      + rewrite decide_False by done. apply IH. }
  destruct (Hgen []) as [k Hk]. exists k. by rewrite add_wire_nil in Hk.
Qed.

(** Such a loop, exactly: the frame goes to the sessions of that type
    that come before the first dead one, and the send to that one
    raises out of the loop. *)
Lemma for_each_send_until_dead (t : MeffecClientType.t) (frame : json)
    (body : WebSocket -> M unit) (w : World) (l : list WebSocket) :
  (forall c frames,
     body c (add_wire w frames) =
     if has_type w c t then send c frame (add_wire w frames)
     else (Return tt, add_wire w frames)) ->
  for_each l body w =
  (if all_open w (filter (fun c => has_type w c t = true) l)
   then Return tt else Raise ConnectionClosed,
   add_wire w (map (fun c => (c, frame))
                   (before_dead (is_closed w) (filter (fun c => has_type w c t = true) l)))).
Proof.
  intros Hbody.
  assert (forall sent,
    for_each l body (add_wire w sent) =
    (if all_open w (filter (fun c => has_type w c t = true) l)
     then Return tt else Raise ConnectionClosed,
     add_wire w (sent ++ map (fun c => (c, frame))
                   (before_dead (is_closed w)
                      (filter (fun c => has_type w c t = true) l))))) as Hgen.
  { induction l as [|c l IH]; intros sent; simpl.
    - unfold ret. by rewrite app_nil_r.
    - unfold bind. rewrite Hbody, filter_cons.
      destruct (has_type w c t) eqn:Ht.
      + rewrite decide_True by done.
        destruct (decide (c ∈ closed w)) as [Hc|Hc].
        * assert (is_closed w c = true) as Hd by (by apply bool_decide_eq_true_2).
          rewrite send_closed by done. unfold all_open. simpl. rewrite Hd. simpl.
          by rewrite app_nil_r.
        * assert (is_closed w c = false) as Hd by (by apply bool_decide_eq_false_2).
          rewrite send_open by done. unfold all_open. simpl. rewrite Hd. simpl.
          rewrite add_wire_app, IH. unfold all_open. by rewrite <- app_assoc.
      + rewrite decide_False by done. apply IH. }
  specialize (Hgen []). by rewrite add_wire_nil in Hgen.
Qed.

(* ================================================================= *)
(** ** The roster push *)

Lemma roster_of_ends w l : roster_of w l <> NoFuel.
Proof.
  induction l as [|c l IH]; simpl; [done|].
  destruct (get_controller_information (client_of w c)) as [info|e|] eqn:E; try done.
  - destruct (roster_of w l); done.
  - unfold get_controller_information in E. destruct (type (client_of w c)); done.
Qed.

(** The push either does nothing (no controller), or raises and leaves
    the world as it was, or sends one roster frame to the controller. *)
Lemma roster_push_cases w :
  match controller_of w with
  | None => send_connected_clients_to_controller w = (Return tt, w)
  | Some c =>
      (exists e, send_connected_clients_to_controller w = (Raise e, w)) \/
      (exists roster,
          roster_of w (clients_of w) = Return roster /\ (c ∉ closed w) /\
          send_connected_clients_to_controller w =
          (Return tt, add_wire w [(c, connected_clients_frame roster)]))
  end.
Proof.
  unfold send_connected_clients_to_controller.
  destruct (controller_of w) as [c|]; [|done].
  unfold bind, lift.
  pose proof (roster_of_ends w (clients_of w)) as Hends.
  destruct (roster_of w (clients_of w)) as [roster|e|]; [|left; eauto|done].
  destruct (decide (c ∈ closed w)) as [Hc|Hc].
  - left. exists ConnectionClosed. by apply send_closed.
  - right. exists roster. by rewrite send_open.
Qed.

(** Whatever the push does, only the wire can change, and every frame it
    adds is addressed to the controller. *)
Lemma roster_push_frame w :
  exists frames,
    (send_connected_clients_to_controller w).2 = add_wire w frames /\
    Forall (fun f => controller_of w = Some f.1) frames.
Proof.
  pose proof (roster_push_cases w) as H.
  destruct (controller_of w) as [c|] eqn:Ec.
  - destruct H as [[e ->]|(roster & _ & _ & ->)]; simpl.
    + exists []. by rewrite add_wire_nil.
    + exists [(c, connected_clients_frame roster)]. split; [done|].
      by repeat constructor.
  - rewrite H. exists []. by rewrite add_wire_nil.
Qed.

Lemma roster_push_ends w : (send_connected_clients_to_controller w).1 <> NoFuel.
Proof.
  pose proof (roster_push_cases w) as H.
  destruct (controller_of w) as [c|].
  - by destruct H as [[e ->]|(roster & _ & _ & ->)].
  - by rewrite H.
Qed.

Lemma authenticate_client_unfold w client data role client_name :
  getitem data "type" = Return role ->
  getitem data "name" = Return client_name ->
  let t := MeffecClientType.get_client_type role in
  authenticate_client client data w =
  (match t with
   | Some MeffecClientType.APP => send_effects_to_app_client client
   | _ => ret tt
   end ;;; send_connected_clients_to_controller) (authenticated w client t client_name).
Proof.
  intros Hrole Hname t.
  unfold authenticate_client, bind, lift. rewrite Hrole, Hname. simpl.
  unfold has_type, client_of. simpl. rewrite !lookup_insert_eq. simpl.
  fold t. rewrite insert_insert_eq.
  unfold authenticated, ret, clients_of, effects_of, controller_of.
  destruct w as [[cl ef cc] ob cs wi nw]; simpl.
  destruct t as [[| |]|]; simpl; rewrite ?lookup_insert_eq; reflexivity.
Qed.

Lemma handle_authentication w client message role client_name :
  authentication message role client_name ->
  let t := MeffecClientType.get_client_type role in
  handle_message client message w =
  (match t with
   | Some MeffecClientType.APP => send_effects_to_app_client client
   | _ => ret tt
   end ;;; send_connected_clients_to_controller) (authenticated w client t client_name).
Proof.
  intros (data & [Htype Hdata] & Hrole & Hname) t.
  unfold handle_message, bind at 1, lift at 1. rewrite Htype. simpl.
  unfold bind at 1, lift at 1. rewrite Hdata.
  by apply authenticate_client_unfold.
Qed.

(** Handling a controller's authentication: the world is [authenticated]
    plus whatever the roster push put on the wire. *)
Lemma handle_controller_authentication w client message client_name :
  authentication message (JStr "controller") client_name ->
  exists frames,
    (handle_message client message w).2 =
    add_wire (authenticated w client (Some MeffecClientType.CONTROLLER) client_name) frames.
Proof.
  intros Hauth. rewrite (handle_authentication _ _ _ _ _ Hauth). simpl.
  unfold bind, ret.
  destruct (roster_push_frame
              (authenticated w client (Some MeffecClientType.CONTROLLER) client_name))
    as (frames & Hw & _).
  by exists frames.
Qed.

(* ================================================================= *)
(** ** Single controller *)

(** A turn of the connection handler that leaves the session running is
    the handling of the message and nothing more. *)
Lemma running_is_handled (w : World) (client : WebSocket) (message : json) :
  (websocket_connection_handler client (Message message) w).1 = Return Running ->
  (handle_message client message w).1 = Return tt /\
  (websocket_connection_handler client (Message message) w).2 =
  (handle_message client message w).2.
Proof.
  unfold websocket_connection_handler.
  destruct (handle_message client message w) as [[[]|e|] w']; simpl; try done.
  destruct (cleanup client w') as [[a|e'|] w'']; simpl; try done.
  by destruct (exn_eqb e ConnectionClosed).
Qed.

(** What two calls of [handle_message] leave, one after the other, for
    controller authentications of [A] and then [B]; what the read loop
    does when a call raises is not part of this. *)
Lemma two_controller_authentications (w : World) (A B : WebSocket)
    (mA mB nameA nameB : json) :
  A <> B ->
  A ∈ clients_of w ->
  authentication mA (JStr "controller") nameA ->
  authentication mB (JStr "controller") nameB ->
  let w1 := (handle_message A mA w).2 in
  let w2 := (handle_message B mB w1).2 in
  controller_of w2 = Some B /\
  type (client_of w2 B) = Some MeffecClientType.CONTROLLER /\
  A ∈ clients_of w2 /\
  (forall w3, controller_of w3 = controller_of w2 ->
     exists frames,
       (send_connected_clients_to_controller w3).2 = add_wire w3 frames /\
       Forall (fun f => f.1 = B /\ f.1 <> A) frames) /\
  (forall w3 roster, controller_of w3 = controller_of w2 ->
     roster_of w3 (clients_of w3) = Return roster ->
     B ∉ closed w3 ->
     send_connected_clients_to_controller w3 =
     (Return tt, add_wire w3 [(B, connected_clients_frame roster)])).
Proof.
  intros Hne HA HmA HmB w1 w2.
  destruct (handle_controller_authentication w A mA nameA HmA) as [f1 E1].
  destruct (handle_controller_authentication w1 B mB nameB HmB) as [f2 E2].
  fold w1 in E1. fold w2 in E2.
  assert (controller_of w2 = Some B) as Hc by (by rewrite E2).
  split; [done|]. split.
  { rewrite E2. unfold client_of; simpl. by rewrite lookup_insert_eq. }
  split.
  { rewrite E2, E1. done. }
  split.
  - intros w3 H3. rewrite Hc in H3.
    destruct (roster_push_frame w3) as (frames & Hw & Hall).
    exists frames. split; [done|].
    eapply Forall_impl; [exact Hall|]. intros f Hf. simpl in Hf.
    rewrite H3 in Hf. injection Hf as <-. done.
  - intros w3 roster H3 Hr Hopen. rewrite Hc in H3.
    unfold send_connected_clients_to_controller. rewrite H3.
    unfold bind, lift. rewrite Hr. by apply send_open.
Qed.

(** A controller authentication that returns has sent the new
    controller one roster frame. *)
Lemma controller_authentication_returns w client message client_name :
  authentication message (JStr "controller") client_name ->
  (handle_message client message w).1 = Return tt ->
  exists roster,
    handle_message client message w =
    (Return tt,
     add_wire (authenticated w client (Some MeffecClientType.CONTROLLER) client_name)
              [(client, connected_clients_frame roster)]).
Proof.
  intros Hauth. rewrite (handle_authentication _ _ _ _ _ Hauth). simpl.
  unfold bind, ret.
  pose proof (roster_push_cases
                (authenticated w client (Some MeffecClientType.CONTROLLER) client_name)) as H.
  simpl in H.
  change (MeffecClientType.get_client_type (JStr "controller"))
    with (Some MeffecClientType.CONTROLLER).
  destruct H as [[e ->]|(roster & _ & _ & ->)]; [done|].
  intros _. by exists roster.
Qed.

(** X28.  Sessions [A] and then [B] authenticate with role
    ["controller"], and the handler of each goes on with its read loop
    afterwards, that is, neither roster push raised.  Then [A] and then
    [B] were each sent one roster frame, and nothing else was sent; the
    registry is as before, with [A] in it; the controller reference is
    [B], which carries the controller type; and a roster push in any
    world with that same reference writes frames for [B] only, never
    for [A]. *)
Theorem last_controller_wins_when_handled (w : World) (A B : WebSocket)
    (mA mB nameA nameB : json) :
  A <> B ->
  A ∈ clients_of w ->
  authentication mA (JStr "controller") nameA ->
  authentication mB (JStr "controller") nameB ->
  let first := websocket_connection_handler A (Message mA) w in
  let second := websocket_connection_handler B (Message mB) first.2 in
  first.1 = Return Running ->
  second.1 = Return Running ->
  controller_of second.2 = Some B /\
  type (client_of second.2 B) = Some MeffecClientType.CONTROLLER /\
  clients_of second.2 = clients_of w /\
  A ∈ clients_of second.2 /\
  (exists rosterA rosterB,
     wire second.2 =
     wire w ++ [(A, connected_clients_frame rosterA);
                (B, connected_clients_frame rosterB)]) /\
  (forall w3, controller_of w3 = controller_of second.2 ->
     exists frames,
       (send_connected_clients_to_controller w3).2 = add_wire w3 frames /\
       Forall (fun f => f.1 = B /\ f.1 <> A) frames).
Proof.
  intros Hne HA HmA HmB first second Hfirst Hsecond.
  destruct (running_is_handled _ _ _ Hfirst) as [HrA E1]. fold first in E1.
  destruct (running_is_handled _ _ _ Hsecond) as [HrB E2]. fold second in E2.
  rewrite E1 in HrB, E2. rewrite E2. clear Hfirst Hsecond E1 E2 first second.
  destruct (two_controller_authentications w A B mA mB nameA nameB Hne HA HmA HmB)
    as (Hc & Ht & _ & Hpush & _).
  destruct (controller_authentication_returns w A mA nameA HmA HrA) as [rosterA EA].
  destruct (controller_authentication_returns _ B mB nameB HmB HrB) as [rosterB EB].
  assert (clients_of (handle_message B mB (handle_message A mA w).2).2 = clients_of w)
    as Hl by (by rewrite EB, EA).
  split; [exact Hc|]. split; [exact Ht|]. split; [exact Hl|].
  split; [by rewrite Hl|]. split; [|exact Hpush].
  exists rosterA, rosterB. rewrite EB, EA. simpl. by rewrite <- app_assoc.
Qed.

(** C1.  From start-up, sessions [1] and [2] connect, and then each
    authenticates with role ["controller"], [1] first.  The roster push
    of the first authentication meets session [2], which has no type
    yet: the handler of [1] dies of [AttributeError] and its cleanup
    takes [1] out of the registry.  After the message of [2] is handled
    the controller reference is [2], but [1] is not in the registry.
    With a third session connected as well, the handler of [2] dies in
    the same way, and the controller reference is [None] afterwards. *)
Theorem early_session_unseats_the_controller :
  let desk := Message (authentication_message "controller" "desk") in
  let spare := Message (authentication_message "controller" "spare") in
  let two := ((accept 1 ;;; accept 2) startup).2 in
  let first := websocket_connection_handler 1 desk two in
  let second := websocket_connection_handler 2 spare first.2 in
  let three := ((accept 1 ;;; accept 2 ;;; accept 3) startup).2 in
  let first' := websocket_connection_handler 1 desk three in
  let second' := websocket_connection_handler 2 spare first'.2 in
  clients_of two = [1; 2] /\
  first.1 = Raise AttributeError /\
  clients_of first.2 = [2] /\
  second.1 = Return Running /\
  controller_of second.2 = Some 2 /\
  clients_of second.2 = [2] /\
  first'.1 = Raise AttributeError /\
  second'.1 = Raise AttributeError /\
  controller_of second'.2 = None /\
  clients_of second'.2 = [3].
Proof. vm_compute. repeat split; reflexivity. Qed.

(* ================================================================= *)
(** ** Catalog updates and device actions *)

(** A loop whose body only writes to the wire only writes to the wire,
    however it ends. *)
Lemma for_client_from_only_wire (body : WebSocket -> M unit) :
  (forall c w, exists frames, (body c w).2 = add_wire w frames) ->
  forall fuel i w, exists frames, (for_client_from fuel i body w).2 = add_wire w frames.
Proof.
  intros Hbody. induction fuel as [|fuel IH]; intros i w; simpl.
  - exists []. rewrite add_wire_nil. by destruct (clients_of w !! i).
  - destruct (clients_of w !! i) as [c|]; [|exists []; by rewrite add_wire_nil].
    destruct (Hbody c w) as [f1 E1].
    destruct (body c w) as [[a|e|] w']; simpl in E1; subst w'; eauto.
    destruct (IH (S i) (add_wire w f1)) as [f2 E2].
    exists (f1 ++ f2). by rewrite E2, add_wire_app.
Qed.

Lemma send_only_wire c frame w : exists frames, (send c frame w).2 = add_wire w frames.
Proof.
  unfold send. case_bool_decide; simpl.
  - exists []. by rewrite add_wire_nil.
  - by exists [(c, frame)].
Qed.

Lemma send_effects_to_all_only_wire w :
  exists frames, (send_effects_to_all_connected_app_clients w).2 = add_wire w frames.
Proof.
  apply for_client_from_only_wire. intros c w'.
  destruct (has_type w' c MeffecClientType.APP).
  - apply send_only_wire.
  - exists []. by rewrite add_wire_nil.
Qed.

Lemma handle_available_effects w client message catalog :
  available_effects_update message catalog ->
  handle_message client message w =
  send_effects_to_all_connected_app_clients (with_catalog w catalog).
Proof.
  intros (data & [[Htype Hdata] Hinfo] & Hcat).
  unfold handle_message, bind at 1, lift at 1. rewrite Htype. simpl.
  unfold bind at 1, lift at 1. rewrite Hdata.
  unfold process_information, bind at 1, lift at 1. rewrite Hinfo. simpl.
  unfold bind at 1, lift at 1. rewrite Hcat.
  unfold bind at 1. simpl. by destruct w as [[cl ef cc] ob cs wi nw].
Qed.

Lemma send_effects_to_all_stable w :
  send_effects_to_all_connected_app_clients w =
  for_each (clients_of w)
    (fun client w' =>
       if has_type w' client MeffecClientType.APP
       then send_effects_to_app_client client w'
       else (Return tt, w')) w.
Proof.
  unfold send_effects_to_all_connected_app_clients.
  apply for_client_stable.
  intros c w'. destruct (has_type w' c MeffecClientType.APP); [|done].
  unfold send_effects_to_app_client.
  by destruct (send_only_wire c (available_effects_frame (effects_of w')) w') as [f ->].
Qed.

Lemma send_effects_to_all_open w :
  (forall c, c ∈ clients_of w -> has_type w c MeffecClientType.APP = true -> c ∉ closed w) ->
  send_effects_to_all_connected_app_clients w =
  (Return tt,
   add_wire w (map (fun c => (c, available_effects_frame (effects_of w)))
                   (sessions_of_type w MeffecClientType.APP))).
Proof.
  intros Hopen. rewrite send_effects_to_all_stable.
  apply for_each_send; [|done]. intros c frames. reflexivity.
Qed.

Lemma send_effects_to_all_prefix w :
  exists k,
    (send_effects_to_all_connected_app_clients w).2 =
    add_wire w (map (fun c => (c, available_effects_frame (effects_of w)))
                    (take k (sessions_of_type w MeffecClientType.APP))).
Proof.
  rewrite send_effects_to_all_stable.
  apply for_each_send_prefix. intros c frames. reflexivity.
Qed.

(** X27.  An [available_effects] update carrying [catalog], from any
    session: the stored catalog becomes exactly [catalog], and the
    frame that carries it, itself an [available_effects] update with
    that catalog, is sent to the App sessions of the registry that come
    before the first one whose transport is dead, in registry order,
    and to no other session.  Handling returns when no App transport is
    dead and raises [ConnectionClosed] otherwise. *)
Theorem catalog_frames_stop_at_a_dead_app (w : World) (sender : WebSocket)
    (message catalog : json) :
  available_effects_update message catalog ->
  let apps := sessions_of_type w MeffecClientType.APP in
  handle_message sender message w =
  (if all_open w apps then Return tt else Raise ConnectionClosed,
   add_wire (with_catalog w catalog)
            (map (fun a => (a, available_effects_frame catalog))
                 (before_dead (is_closed w) apps))) /\
  available_effects_update (available_effects_frame catalog) catalog.
Proof.
  intros Hm apps. split.
  - rewrite (handle_available_effects _ _ _ _ Hm), send_effects_to_all_stable.
    apply (for_each_send_until_dead MeffecClientType.APP
             (available_effects_frame catalog) _ (with_catalog w catalog)).
    intros c frames. reflexivity.
  - eexists. repeat split; reflexivity.
Qed.

Lemma handle_device_action w client message device payload :
  device_action message device payload ->
  exists data,
    getitem data "data" = Return payload /\
    handle_message client message w =
    for_client (fun c w' =>
      if has_type w' c MeffecClientType.DEVICE
      then (let* d := lift (getitem data "data") in
            send c (device_action_frame d)) w'
      else (Return tt, w')) w.
Proof.
  intros (data & [Htype Hdata] & Hdev & Hpay). exists data. split; [done|].
  unfold handle_message, bind at 1, lift at 1. rewrite Htype. simpl.
  unfold bind at 1, lift at 1. rewrite Hdata.
  unfold forward_device_action, bind at 1, lift at 1. by rewrite Hdev.
Qed.

(** X26.  A [device_action] envelope with device [device] and payload
    [payload], from any session: the frame
    [{"type": "device_action", "data": payload}], which has no
    ["device"] key, is sent to the Device sessions of the registry that
    come before the first one whose transport is dead, in registry
    order, and to no other session; the [device] value and the
    sessions' names play no part, and nothing else changes.  Handling
    returns when no Device transport is dead and raises
    [ConnectionClosed] otherwise. *)
Theorem device_frames_stop_at_a_dead_device (w : World) (sender : WebSocket)
    (message device payload : json) :
  device_action message device payload ->
  let devices := sessions_of_type w MeffecClientType.DEVICE in
  handle_message sender message w =
  (if all_open w devices then Return tt else Raise ConnectionClosed,
   add_wire w (map (fun d => (d, device_action_frame payload))
                   (before_dead (is_closed w) devices))) /\
  getitem (device_action_frame payload) "type" = Return (JStr "device_action") /\
  getitem (device_action_frame payload) "data" = Return payload /\
  getitem (device_action_frame payload) "device" = Raise KeyError.
Proof.
  intros Hmsg devices.
  destruct (handle_device_action w sender _ _ _ Hmsg) as (data & Hpay & ->).
  split; [|done].
  rewrite for_client_stable.
  - apply (for_each_send_until_dead MeffecClientType.DEVICE). intros c frames.
    unfold bind, lift. rewrite Hpay. reflexivity.
  - intros c w'. destruct (has_type w' c MeffecClientType.DEVICE); [|done].
    unfold bind, lift. rewrite Hpay.
    by destruct (send_only_wire c (device_action_frame payload) w') as [f ->].
Qed.

Lemma eq_str_false (obj : json) (s : string) : obj <> JStr s -> eq_str obj s = false.
Proof.
  intros Hne. destruct obj; simpl; try done.
  apply String.eqb_neq. congruence.
Qed.

(** C10.  An [information] envelope whose nested type is anything but
    ["available_effects"]: handling it returns and the world is the one
    before, the same catalog, registry, controller reference and client
    objects, and the same wire, so nothing was sent. *)
Theorem other_information_changes_nothing (w : World) (client : WebSocket)
    (message info_type data : json) :
  information message info_type data ->
  info_type <> JStr "available_effects" ->
  handle_message client message w = (Return tt, w).
Proof.
  intros [[Htype Hdata] Hinfo] Hne.
  unfold handle_message, bind at 1, lift at 1. rewrite Htype. simpl.
  unfold bind at 1, lift at 1. rewrite Hdata.
  unfold process_information, bind at 1, lift at 1. rewrite Hinfo. simpl.
  by rewrite (eq_str_false _ _ Hne).
Qed.

(* ================================================================= *)
(** ** Removal from the registry *)

Lemma list_remove_absent (x : WebSocket) (l : list WebSocket) :
  x ∉ l -> list_remove x l = Raise ValueError.
Proof.
  induction l as [|y l IH]; intros Hx; simpl; [done|].
  apply not_elem_of_cons in Hx as [Hne Hx].
  rewrite (proj2 (Nat.eqb_neq y x)) by done.
  by rewrite IH.
Qed.

Lemma list_remove_present (x : WebSocket) (l : list WebSocket) :
  x ∈ l -> exists l', list_remove x l = Return l' /\ length l = S (length l').
Proof.
  induction l as [|y l IH]; intros Hx; simpl.
  - by apply elem_of_nil in Hx.
  - destruct (Nat.eqb_spec y x) as [->|Hne]; [by eexists|].
    apply elem_of_cons in Hx as [->|Hx]; [done|].
    destruct (IH Hx) as (l' & -> & Hlen). eexists; split; [done|]. simpl. lia.
Qed.

Lemma list_remove_ends (x : WebSocket) (l : list WebSocket) :
  list_remove x l <> NoFuel.
Proof.
  induction l as [|y l IH]; simpl; [done|].
  destruct (Nat.eqb y x); [done|]. by destruct (list_remove x l).
Qed.

Lemma remove_connected_client_cases w client :
((client ∉ clients_of w) /\ remove_connected_client client w = (Raise ValueError, w)) \/
  (exists l, list_remove client (clients_of w) = Return l /\
             length (clients_of w) = S (length l) /\
             remove_connected_client client w = (Return tt, with_clients w l)).
Proof.
  unfold remove_connected_client, bind, lift.
  destruct (decide (client ∈ clients_of w)) as [Hin|Hout].
  - right. destruct (list_remove_present _ _ Hin) as (l & E & Hlen).
    exists l. by rewrite E.
  - left. by rewrite list_remove_absent.
Qed.

(** C5.  Removing a session that is not in the registry raises
    [ValueError] and leaves the world as it was, without a roster push;
    in the read loop's cleanup the error leaves the [finally] block, so
    the handler ends with it. *)
Theorem remove_absent_raises (w : World) (s : WebSocket) :
  s ∉ clients_of w ->
  disconnect_client s w = (Raise ValueError, w) /\
  (websocket_connection_handler s Gone w).1 = Raise ValueError.
Proof.
  intros Hs.
  assert (forall w', clients_of w' = clients_of w ->
                     disconnect_client s w' = (Raise ValueError, w')) as Hd.
  { intros w' Hw'. unfold disconnect_client, bind.
    destruct (remove_connected_client_cases w' s) as [[_ ->]|(l & E & _)]; [done|].
    rewrite Hw', list_remove_absent in E; done. }
  split; [by apply Hd|].
  unfold websocket_connection_handler, cleanup, bind.
  case_bool_decide; simpl; by rewrite Hd.
Qed.

(** The read loop's cleanup never leaves the controller reference on
    the session it removes. *)
Lemma cleanup_clears_controller w client :
  controller_of (cleanup client w).2 <> Some client.
Proof.
  unfold cleanup, bind.
  assert (forall w', controller_of w' <> Some client ->
            controller_of (disconnect_client client w').2 <> Some client) as Hd.
  { intros w' Hw'. unfold disconnect_client, bind.
    destruct (remove_connected_client_cases w' client) as [[_ ->]|(l & _ & _ & ->)]; [done|].
    by destruct (roster_push_frame (with_clients w' l)) as (f & -> & _). }
  case_bool_decide as Hc; simpl.
  - by apply Hd.
  - by apply Hd.
Qed.

(* ================================================================= *)
(** ** A pass over a registry with dead transports *)

Lemma list_remove_middle (c : WebSocket) (pre rest : list WebSocket) :
  c ∉ pre -> list_remove c (pre ++ c :: rest) = Return (pre ++ rest).
Proof.
  induction pre as [|y pre IH]; intros Hc; simpl.
  - by rewrite Nat.eqb_refl.
  - apply not_elem_of_cons in Hc as [Hne Hc].
    rewrite (proj2 (Nat.eqb_neq y c)) by done. by rewrite IH.
Qed.

Lemma with_clients_same w : with_clients w (clients_of w) = w.
Proof. by destruct w as [[cl ef cc] ob cs wi nw]. Qed.

Section Sweep.
Variable frame : json.
Variable handler : WebSocket -> M unit.

(** The worlds in which the handler of a failed send does nothing but
    remove the session. *)
Variable quiet : World -> Prop.
Hypothesis quiet_add_wire : forall w frames, quiet w -> quiet (add_wire w frames).
Hypothesis quiet_with_clients : forall w l, quiet w -> quiet (with_clients w l).
Hypothesis handler_removes : forall c w l,
  quiet w -> list_remove c (clients_of w) = Return l ->
  handler c w = (Return tt, with_clients w l).

Lemma sweep_from (w : World) (fuel : nat) : forall pre rest sent,
  NoDup (pre ++ rest) ->
  length rest <= fuel ->
  quiet w ->
  for_client_from fuel (length pre)
    (fun c => try_except (send c frame) ConnectionClosed (handler c))
    (add_wire (with_clients w (pre ++ rest)) sent) =
  (Return tt,
   add_wire (with_clients w (pre ++ sweep (is_closed w) rest))
            (sent ++ map (fun c => (c, frame)) (reached (is_closed w) rest))).
Proof.
  induction fuel as [|fuel IH]; intros pre rest sent Hnd Hlen Hq.
  - destruct rest; [|simpl in Hlen; lia].
    cbn [for_client_from]. unfold clients_of at 1. cbn.
    rewrite lookup_ge_None_2 by (rewrite length_app; simpl; lia).
    simpl. by rewrite !app_nil_r.
  - destruct rest as [|c rest].
    { cbn [for_client_from]. unfold clients_of at 1. cbn.
      rewrite lookup_ge_None_2 by (rewrite length_app; simpl; lia).
      simpl. by rewrite !app_nil_r. }
    cbn [for_client_from]. unfold clients_of at 1. cbn [with_clients add_wire server_information connected_clients].
    rewrite list_lookup_middle by done.
    assert (c ∉ pre) as Hc.
    { apply NoDup_app in Hnd as (_ & Hdis & _). intros Hin.
      apply (Hdis c Hin). left. }
    unfold try_except. cbn [sweep reached].
    destruct (is_closed w c) eqn:Hd; unfold is_closed in Hd.
    + apply bool_decide_eq_true_1 in Hd.
      rewrite send_closed by done. cbn [exn_eqb].
      rewrite (handler_removes c _ (pre ++ rest)).
      2: { apply quiet_add_wire, quiet_with_clients, Hq. }
      2: { apply list_remove_middle, Hc. }
      destruct rest as [|d rest].
      * destruct fuel; cbn [for_client_from]; unfold clients_of at 1; cbn;
          rewrite lookup_ge_None_2 by (rewrite length_app; simpl; lia);
          simpl; by rewrite !app_nil_r.
      * destruct fuel as [|fuel']; [simpl in Hlen; lia|].
        assert (S (length pre) = length (pre ++ [d])) as -> by (rewrite length_app; simpl; lia).
        assert (NoDup ((pre ++ [d]) ++ rest)) as Hnd'.
        { rewrite <- app_assoc. simpl.
          apply NoDup_app in Hnd as (Hp & Hdis & Hr).
          apply NoDup_cons in Hr as [_ Hr].
          apply NoDup_app. split; [done|]. split; [|done].
          intros x Hx Hx'. apply (Hdis x Hx). by right. }
        specialize (IH (pre ++ [d]) rest sent Hnd').
        rewrite <- !app_assoc in IH. simpl in IH.
        assert (length rest <= S fuel') as Hl by (simpl in Hlen; lia).
        specialize (IH Hl Hq).
        exact IH.
    + apply bool_decide_eq_false_1 in Hd.
      rewrite send_open by done.
      assert (S (length pre) = length (pre ++ [c])) as -> by (rewrite length_app; simpl; lia).
      assert (NoDup ((pre ++ [c]) ++ rest)) as Hnd' by (by rewrite <- app_assoc).
      specialize (IH (pre ++ [c]) rest (sent ++ [(c, frame)]) Hnd').
      rewrite <- !app_assoc in IH. simpl in IH.
      assert (length rest <= fuel) as Hl by (simpl in Hlen; lia).
      specialize (IH Hl Hq).
      rewrite add_wire_app. exact IH.
Qed.

(** The whole pass: a dead session is removed and the session behind it
    is stepped over; the others get the frame. *)
Lemma sweep_pass (w : World) :
  NoDup (clients_of w) ->
  quiet w ->
  for_client (fun c => try_except (send c frame) ConnectionClosed (handler c)) w =
  (Return tt,
   add_wire (with_clients w (sweep (is_closed w) (clients_of w)))
            (map (fun c => (c, frame)) (reached (is_closed w) (clients_of w)))).
Proof.
  intros Hnd Hq. unfold for_client.
  pose proof (sweep_from w (length (clients_of w)) [] (clients_of w) [] Hnd) as H.
  simpl in H. rewrite with_clients_same, add_wire_nil in H.
  by apply H.
Qed.
End Sweep.

(** The relay of a message, in any world whose registry has no session
    twice: the dead sessions met are removed, the sessions behind them
    stepped over, and nothing but the relayed message is sent; the
    controller reference stays as it was and no roster is pushed. *)
Lemma relay_message_sweep (w : World) (message : json) :
  NoDup (clients_of w) ->
  relay_message_to_all_clients message w =
  (Return tt,
   add_wire (with_clients w (sweep (is_closed w) (clients_of w)))
            (map (fun c => (c, message)) (reached (is_closed w) (clients_of w)))).
Proof.
  intros Hnd. unfold relay_message_to_all_clients.
  apply (sweep_pass message remove_connected_client (fun _ => True)); [done|done| |done|done].
  intros c w' l _ Hl. unfold remove_connected_client, bind, lift. by rewrite Hl.
Qed.

(** The heartbeat pass without a controller. *)
Lemma heartbeat_pass_sweep (w : World) :
  NoDup (clients_of w) ->
  controller_of w = None ->
  heartbeat_pass w =
  (Return tt,
   add_wire (with_clients w (sweep (is_closed w) (clients_of w)))
            (map (fun c => (c, heartbeat_frame)) (reached (is_closed w) (clients_of w)))).
Proof.
  intros Hnd Hc. unfold heartbeat_pass.
  apply (sweep_pass heartbeat_frame disconnect_client (fun w' => controller_of w' = None));
    [by intros w' frames Hq|by intros w' l Hq| |done|done].
  intros c w' l Hq Hl.
  unfold disconnect_client, remove_connected_client, bind, lift. rewrite Hl. simpl.
  unfold send_connected_clients_to_controller.
  unfold with_clients, clients_of, effects_of, controller_of in *. simpl.
  by rewrite Hq.
Qed.

(** Two dead sessions side by side: the pass leaves the second one in
    the registry. *)
Lemma heartbeat_pass_keeps_second_dead (w : World) (a b : WebSocket) (rest : list WebSocket) :
  clients_of w = a :: b :: rest ->
  NoDup (clients_of w) ->
  controller_of w = None ->
  a ∈ closed w ->
  b ∈ clients_of (heartbeat_pass w).2.
Proof.
  intros Hl Hnd Hc Ha. rewrite heartbeat_pass_sweep by done.
  rewrite Hl. cbn. unfold is_closed at 1. rewrite bool_decide_eq_true_2 by done.
  left.
Qed.

(* ================================================================= *)
(** ** What the code does when a transport is dead *)

(** C2.  On the stage with the controller's transport dead, the
    heartbeat pass removes the controller from the registry, keeps the
    controller reference on it, pushes the roster to it and dies of the
    [ConnectionClosed] this raises.  The relay path removes it too and
    keeps the reference, so that the next roster push raises. *)
Theorem dead_controller_stays_referenced :
  let w := transport_dies 1 stage in
  let beat := heartbeat_pass w in
  let relay := handle_message 2 (play_effect_message "light" "flash") w in
  beat.1 = Raise ConnectionClosed /\
  clients_of beat.2 = [2; 3] /\
  controller_of beat.2 = Some 1 /\
  relay.1 = Return tt /\
  clients_of relay.2 = [2; 3] /\
  controller_of relay.2 = Some 1 /\
  (send_connected_clients_to_controller relay.2).1 = Raise ConnectionClosed.
Proof. vm_compute. repeat split; reflexivity. Qed.

(** C8.  With the strobe's transport dead, a [device_action] from the
    controller session [1] raises [ConnectionClosed] into the handler
    of [1]: the fogger gets nothing, the strobe stays registered, and
    it is session [1] that is removed and loses the controller
    reference, with no roster push.  On the relay path the dead fogger
    is removed and no roster is pushed to the controller. *)
Theorem send_failure_ends_the_sender :
  let targeted :=
    websocket_connection_handler 1
      (Message (device_action_message "fogger" (JStr "on")))
      (transport_dies 2 two_devices) in
  let relayed :=
    handle_message 2 (play_effect_message "light" "flash")
      (transport_dies 3 stage) in
  targeted.1 = Return Ended /\
  clients_of targeted.2 = [2; 3] /\
  controller_of targeted.2 = None /\
  wire targeted.2 = [] /\
  relayed.1 = Return tt /\
  clients_of relayed.2 = [1; 2] /\
  wire relayed.2 = [(1, play_effect_message "light" "flash");
                    (2, play_effect_message "light" "flash")].
Proof. vm_compute. repeat split; reflexivity. Qed.

(** C6.  On the controller, the tablet and the phone, both apps, with
    the tablet's transport dead: an [available_effects] update from the
    controller stores the catalog and raises [ConnectionClosed] on the
    send to the tablet, so the phone, an App session of the registry
    with an open transport, is sent nothing; the handler of the
    controller takes the error for its own disconnect and removes the
    controller. *)
Theorem dead_app_starves_the_next :
  let w := transport_dies 2 two_apps in
  let update := available_effects_message (JList [JStr "rain"]) in
  let handled := handle_message 1 update w in
  let turn := websocket_connection_handler 1 (Message update) w in
  clients_of w = [1; 2; 3] /\
  has_type w 3 MeffecClientType.APP = true /\
  is_closed w 3 = false /\
  handled.1 = Raise ConnectionClosed /\
  effects_of handled.2 = JList [JStr "rain"] /\
  wire handled.2 = [] /\
  turn.1 = Return Ended /\
  clients_of turn.2 = [2; 3] /\
  controller_of turn.2 = None /\
  wire turn.2 = [].
Proof. vm_compute. repeat split; reflexivity. Qed.

(** C7.  On the controller, the strobe and the fogger, both devices,
    with the strobe's transport dead: a [device_action] from the
    controller raises [ConnectionClosed] on the send to the strobe, so
    the fogger, a Device session of the registry with an open
    transport, is sent nothing, whichever of the two the action names. *)
Theorem dead_device_starves_the_next :
  let w := transport_dies 2 two_devices in
  let for_fogger := handle_message 1 (device_action_message "fogger" (JStr "on")) w in
  let for_strobe := handle_message 1 (device_action_message "strobe" (JStr "on")) w in
  clients_of w = [1; 2; 3] /\
  has_type w 3 MeffecClientType.DEVICE = true /\
  is_closed w 3 = false /\
  for_fogger = (Raise ConnectionClosed, w) /\
  for_strobe = (Raise ConnectionClosed, w) /\
  wire w = [].
Proof. vm_compute. repeat split; reflexivity. Qed.

(** C9.  The audience gets a heartbeat at time 0; then the transports
    of [1] and [2] die.  The pass at time 5 removes [1] and steps over
    [2], which slid into its place: at time 10 session [2] is still in
    the registry and is removed only by the pass that follows.  In a
    pass where only [1] is dead, the live session [2] gets no heartbeat. *)
Theorem heartbeat_steps_over_a_session :
  let first := send_heartbeat_to_all_clients 1 5 audience in
  let dead := transport_dies 2 (transport_dies 1 first.2) in
  let second := send_heartbeat_to_all_clients 1 5 dead in
  let third := send_heartbeat_to_all_clients 1 5 second.2 in
  let one_dead := heartbeat_pass (transport_dies 1 audience) in
  first.1 = Return tt /\
  wire first.2 = [(1, heartbeat_frame); (2, heartbeat_frame); (3, heartbeat_frame)] /\
  now first.2 = 5 /\
  second.1 = Return tt /\
  clients_of second.2 = [2; 3] /\
  now second.2 = 10 /\
  clients_of third.2 = [3] /\
  now third.2 = 15 /\
  one_dead.1 = Return tt /\
  clients_of one_dead.2 = [2; 3] /\
  wire one_dead.2 = [(3, heartbeat_frame)].
Proof. vm_compute. repeat split; reflexivity. Qed.

(* ================================================================= *)
(** ** Unknown role names *)

Lemma roster_of_untyped w l c :
  c ∈ l -> type (client_of w c) = None -> roster_of w l = Raise AttributeError.
Proof.
  intros Hin Hnone. induction l as [|y l IH]; [by apply elem_of_nil in Hin|].
  simpl. unfold get_controller_information.
  destruct (type (client_of w y)) as [t|] eqn:Ey; [|done].
  apply elem_of_cons in Hin as [->|Hin]; [congruence|].
  by rewrite IH.
Qed.

Lemma disconnect_client_present w client :
  client ∈ clients_of w ->
  exists l frames,
    list_remove client (clients_of w) = Return l /\
    (disconnect_client client w).2 = add_wire (with_clients w l) frames /\
    (disconnect_client client w).1 <> NoFuel.
Proof.
  intros Hin. unfold disconnect_client, bind.
  destruct (remove_connected_client_cases w client) as [[Hout _]|(l & E & _ & ->)]; [done|].
  destruct (roster_push_frame (with_clients w l)) as (frames & Hw & _).
  exists l, frames. split; [done|]. split; [done|]. apply roster_push_ends.
Qed.

(** C4.  A session of the registry sends an authentication whose role
    name the enumeration does not know, while there is a controller.
    Its type becomes [None], its name is set, the controller reference
    and the registry are untouched, and the roster push raises
    [AttributeError] on the session's missing type.  The error leaves
    the read loop: the handler ends with an error after its cleanup has
    taken the session out of the registry. *)
Theorem unknown_role_raises (w : World) (client controller : WebSocket)
    (message role client_name : json) :
  authentication message role client_name ->
  MeffecClientType.get_client_type role = None ->
  controller_of w = Some controller ->
  client ∈ clients_of w ->
  let r := handle_message client message w in
  let s := websocket_connection_handler client (Message message) w in
  r.1 = Raise AttributeError /\
  type (client_of r.2 client) = None /\
  name (client_of r.2 client) = client_name /\
  controller_of r.2 = Some controller /\
  clients_of r.2 = clients_of w /\
  (exists e, s.1 = Raise e) /\
  list_remove client (clients_of w) = Return (clients_of s.2).
Proof.
  intros Hauth Hrole Hctl Hin r s.
  pose proof (handle_authentication w client message role client_name Hauth) as Hm.
  simpl in Hm. rewrite Hrole in Hm.
  set (w' := authenticated w client None client_name) in *.
  assert (type (client_of w' client) = None) as Htype.
  { unfold client_of, w'; simpl. by rewrite lookup_insert_eq. }
  assert (r = (Raise AttributeError, w')) as Hr.
  { subst r. rewrite Hm. unfold bind, ret, send_connected_clients_to_controller.
    replace (controller_of w') with (Some controller) by (by rewrite <- Hctl).
    unfold bind, lift. by rewrite (roster_of_untyped w' (clients_of w') client Hin Htype). }
  rewrite Hr. simpl.
  split; [done|]. split; [done|].
  split. { unfold client_of, w'; simpl. by rewrite lookup_insert_eq. }
  split; [done|]. split; [done|].
  subst s. unfold websocket_connection_handler. fold r. rewrite Hr.
  unfold cleanup, bind.
  assert (forall w'', clients_of w'' = clients_of w ->
            (exists e, (match disconnect_client client w'' with
                        | (Return _, w3) => (Raise AttributeError, w3)
                        | (Raise e', w3) => (Raise e', w3)
                        | (NoFuel, w3) => (@NoFuel session, w3)
                        end).1 = Raise e) /\
            list_remove client (clients_of w) =
            Return (clients_of (match disconnect_client client w'' with
                        | (Return _, w3) => (Raise AttributeError, w3)
                        | (Raise e', w3) => (Raise e', w3)
                        | (NoFuel, w3) => (@NoFuel session, w3)
                        end).2)) as Hd.
  { intros w'' Hw''.
    destruct (disconnect_client_present w'' client) as (l & frames & Hl & H2 & H1);
      [by rewrite Hw''|].
    rewrite Hw'' in Hl.
    destruct (disconnect_client client w'') as [[a|e'|] w3]; simpl in *; subst w3;
      try done; split; eauto. }
  case_bool_decide; simpl; by apply Hd.
Qed.

(* ================================================================= *)
(** ** The handshake *)

Lemma split_from_absent (sep : string) (s : string) :
  contains s sep = false ->
  forall acc, split_from sep 0 acc s = [String.rev_app acc s].
Proof.
  induction s as [|c rest IH]; intros Habs acc; [done|].
  cbn [contains] in Habs. apply orb_false_iff in Habs as [Hp Hrest].
  cbn [split_from]. rewrite Hp. by rewrite IH.
Qed.

Lemma split_absent (s sep : string) : contains s sep = false -> split s sep = [s].
Proof. intros H. unfold split. by rewrite split_from_absent. Qed.

(** With a second piece in the split path, the request is let through
    exactly when that piece is the token. *)
Lemma process_request_token (TOKEN path first token : string) (rest : list string) :
  split path "?token=$" = first :: token :: rest ->
  process_request TOKEN path =
  if decide (token = TOKEN) then Return None
  else Return (Some (UNAUTHORIZED, [], "Invalid or missing token" +:+ newline)).
Proof.
  intros Hs. unfold process_request. rewrite Hs. simpl.
  case_decide as Ht.
  - subst. by rewrite String.eqb_refl.
  - by rewrite (proj2 (String.eqb_neq token TOKEN)).
Qed.

(** C3.  A request path without [?token=$] in it: [process_request]
    returns no response at all, it raises [IndexError] on the second
    piece of the split path. *)
Theorem missing_token_raises (TOKEN path : string) :
  contains path "?token=$" = false ->
  process_request TOKEN path = Raise IndexError.
Proof.
  intros Habs. unfold process_request. by rewrite split_absent.
Qed.

(* ================================================================= *)
(** ** Every call ends *)

Lemma bind_ends {A B} (m : M A) (k : A -> M B) :
  ends m -> (forall a, ends (k a)) -> ends (bind m k).
Proof.
  intros Hm Hk w. unfold bind. specialize (Hm w).
  destruct (m w) as [[a|e|] w']; simpl in *; try done. apply Hk.
Qed.

Lemma dict_get_ends fields key : dict_get fields key <> NoFuel.
Proof.
  induction fields as [|[k v] fields IH]; simpl; [done|].
  by destruct (String.eqb k key).
Qed.

Lemma getitem_ends obj key : ends (lift (getitem obj key)).
Proof. intros w. simpl. destruct obj; simpl; try done. apply dict_get_ends. Qed.

Lemma send_ends c frame : ends (send c frame).
Proof. intros w. unfold send. by case_bool_decide. Qed.

Lemma try_except_ends body E handler :
  ends body -> ends handler -> ends (try_except body E handler).
Proof.
  intros Hb Hh w. unfold try_except. specialize (Hb w).
  destruct (body w) as [[a|e|] w']; simpl in *; try done.
  destruct (exn_eqb e E); [apply Hh|done].
Qed.

Lemma remove_connected_client_ends client : ends (remove_connected_client client).
Proof.
  intros w.
  by destruct (remove_connected_client_cases w client) as [[_ ->]|(l & _ & _ & ->)].
Qed.

Lemma disconnect_client_ends client : ends (disconnect_client client).
Proof.
  apply bind_ends; [apply remove_connected_client_ends|].
  intros _ w. apply roster_push_ends.
Qed.

Lemma remove_connected_client_shrinks client w :
  length (clients_of (remove_connected_client client w).2) <= length (clients_of w).
Proof.
  destruct (remove_connected_client_cases w client) as [[_ ->]|(l & _ & Hlen & ->)];
    simpl; [done|]. rewrite Hlen. unfold clients_of. simpl. lia.
Qed.

Lemma disconnect_client_shrinks client w :
  length (clients_of (disconnect_client client w).2) <= length (clients_of w).
Proof.
  unfold disconnect_client, bind.
  pose proof (remove_connected_client_shrinks client w) as Hs.
  destruct (remove_connected_client client w) as [[a|e|] w']; simpl in *; try done.
  by destruct (roster_push_frame w') as (frames & -> & _).
Qed.

Lemma try_send_shrinks c frame handler w :
  (forall w', length (clients_of (handler w').2) <= length (clients_of w')) ->
  length (clients_of (try_except (send c frame) ConnectionClosed handler w).2)
  <= length (clients_of w).
Proof.
  intros Hh. unfold try_except, send. case_bool_decide; simpl; [apply Hh|done].
Qed.

Lemma send_effects_to_all_ends : ends send_effects_to_all_connected_app_clients.
Proof.
  intros w. apply for_client_total.
  - intros c w'. destruct (has_type w' c MeffecClientType.APP); [|done].
    unfold send_effects_to_app_client.
    by destruct (send_only_wire c (available_effects_frame (effects_of w')) w') as [f ->].
  - intros c w'. destruct (has_type w' c MeffecClientType.APP); [|done].
    apply send_ends.
Qed.

Lemma forward_device_action_ends data : ends (forward_device_action data).
Proof.
  apply bind_ends; [apply getitem_ends|]. intros _ w.
  apply for_client_total.
  - intros c w'. destruct (has_type w' c MeffecClientType.DEVICE); [|done].
    unfold bind, lift. destruct (getitem data "data") as [d|e|]; try done.
    by destruct (send_only_wire c (device_action_frame d) w') as [f ->].
  - intros c w'. destruct (has_type w' c MeffecClientType.DEVICE); [|done].
    apply bind_ends; [apply getitem_ends|]. intros d. apply send_ends.
Qed.

Lemma relay_message_to_all_clients_ends message : ends (relay_message_to_all_clients message).
Proof.
  intros w. apply for_client_total.
  - intros c w'. apply try_send_shrinks. apply remove_connected_client_shrinks.
  - intros c. apply try_except_ends; [apply send_ends|apply remove_connected_client_ends].
Qed.

(** The heartbeat pass always comes to an end. *)
Lemma heartbeat_pass_ends : ends heartbeat_pass.
Proof.
  intros w. apply for_client_total.
  - intros c w'. apply try_send_shrinks. apply disconnect_client_shrinks.
  - intros c. apply try_except_ends; [apply send_ends|apply disconnect_client_ends].
Qed.

Lemma authenticate_client_ends client data : ends (authenticate_client client data).
Proof.
  apply bind_ends; [apply getitem_ends|]. intros type_name.
  apply bind_ends; [done|]. intros _.
  apply bind_ends; [apply getitem_ends|]. intros client_name.
  apply bind_ends; [done|]. intros _.
  apply bind_ends.
  { intros w. by destruct (has_type w client MeffecClientType.CONTROLLER). }
  intros _. apply bind_ends.
  { intros w. destruct (has_type w client MeffecClientType.APP); [|done]. apply send_ends. }
  intros _ w. apply roster_push_ends.
Qed.

Lemma process_information_ends data : ends (process_information data).
Proof.
  apply bind_ends; [apply getitem_ends|]. intros info_type.
  destruct (eq_str info_type _); [|done].
  apply bind_ends; [apply getitem_ends|]. intros catalog.
  apply bind_ends; [done|]. intros _. apply send_effects_to_all_ends.
Qed.

(** Handling a message always comes to an end. *)
Lemma handle_message_ends client message : ends (handle_message client message).
Proof.
  apply bind_ends; [apply getitem_ends|]. intros message_type.
  destruct (eq_str message_type _).
  { apply bind_ends; [apply getitem_ends|]. intros d. apply authenticate_client_ends. }
  destruct (eq_str message_type _).
  { apply bind_ends; [apply getitem_ends|]. intros d. apply process_information_ends. }
  destruct (eq_str message_type _).
  { apply bind_ends; [apply getitem_ends|]. intros d. apply forward_device_action_ends. }
  apply relay_message_to_all_clients_ends.
Qed.

Lemma cleanup_ends client : ends (cleanup client).
Proof.
  apply bind_ends.
  { intros w. by case_bool_decide. }
  intros _. apply disconnect_client_ends.
Qed.

(** A turn of the connection handler always comes to an end. *)
Lemma websocket_connection_handler_ends client r :
  ends (websocket_connection_handler client r).
Proof.
  intros w. unfold websocket_connection_handler.
  assert (forall e w', (match cleanup client w' with
                        | (Return _, w'') =>
                            if exn_eqb e ConnectionClosed then (Return Ended, w'')
                            else (Raise e, w'')
                        | (Raise e', w'') => (Raise e', w'')
                        | (NoFuel, w'') => (NoFuel, w'')
                        end).1 <> NoFuel) as Hc.
  { intros e w'. pose proof (cleanup_ends client w') as H.
    destruct (cleanup client w') as [[a|e'|] w'']; simpl in *; try done.
    by destruct (exn_eqb e ConnectionClosed). }
  destruct r as [message|]; [|apply Hc].
  pose proof (handle_message_ends client message w) as H.
  destruct (handle_message client message w) as [[a|e|] w']; simpl in *;
    first [done | apply Hc].
Qed.

(* ================================================================= *)
(** ** The theorems at work on the example worlds *)

(** A connection that is accepted is new to the registry, which so
    never holds a session twice. *)
Lemma accept_NoDup (w : World) (websocket : WebSocket) :
  NoDup (clients_of w) -> websocket ∉ clients_of w ->
  NoDup (clients_of (accept websocket w).2).
Proof.
  intros Hnd Hnew. unfold accept, bind. simpl.
  apply NoDup_app. split; [done|]. split; [|apply NoDup_singleton].
  intros x Hx Hx'. apply list_elem_of_singleton in Hx' as ->. done.
Qed.

(** From start-up: the desk connects and authenticates, then a spare
    desk does.  Each gets the roster of the moment; the second push goes
    to the spare desk alone. *)
Lemma two_desks_from_startup :
  let run :=
    accept 1 ;;;
    handle_message 1 (authentication_message "controller" "desk") ;;;
    accept 2 ;;;
    handle_message 2 (authentication_message "controller" "spare") in
  (run startup).1 = Return tt /\
  clients_of (run startup).2 = [1; 2] /\
  controller_of (run startup).2 = Some 2 /\
  wire (run startup).2 =
  [(1, connected_clients_frame
         [JObj [("type", JStr "controller"); ("name", JStr "desk")]]);
   (2, connected_clients_frame
         [JObj [("type", JStr "controller"); ("name", JStr "desk")];
          JObj [("type", JStr "controller"); ("name", JStr "spare")]])].
Proof. vm_compute. repeat split; reflexivity. Qed.

(** When the spare desk is already connected, not yet authenticated,
    the roster push of the first authentication meets its missing type:
    the handler of session [1] dies and its cleanup removes it. *)
Lemma early_connection_breaks_authentication :
  let run :=
    accept 1 ;;; accept 2 ;;;
    websocket_connection_handler 1
      (Message (authentication_message "controller" "desk")) in
  (run startup).1 = Raise AttributeError /\
  clients_of (run startup).2 = [2] /\
  controller_of (run startup).2 = None /\
  wire (run startup).2 = [].
Proof. vm_compute. repeat split; reflexivity. Qed.

(** A request for the bare path. *)
Lemma missing_token_raises_root :
  process_request "s3cret" "/" = Raise IndexError.
Proof. apply (missing_token_raises "s3cret" "/"). reflexivity. Defined.

(** The fogger of the stage authenticates again, as a ["wizard"]. *)
Lemma unknown_role_raises_stage :
  (handle_message 3 (authentication_message "wizard" "merlin") stage).1
  = Raise AttributeError.
Proof.
  assert (authentication (authentication_message "wizard" "merlin")
                         (JStr "wizard") (JStr "merlin")) as HA
    by (eexists; repeat split; reflexivity).
  assert (MeffecClientType.get_client_type (JStr "wizard") = None) as Hrole
    by reflexivity.
  assert (controller_of stage = Some 1) as Hctl by reflexivity.
  assert (3 ∈ clients_of stage) as Hin by (vm_compute; right; right; left).
  exact (proj1 (unknown_role_raises stage 3 1 _ _ _ HA Hrole Hctl Hin)).
Defined.

(** The cleanup of session [1] after the heartbeat pass has already
    removed it. *)
Lemma remove_absent_raises_after_heartbeat :
  let w := (heartbeat_pass (transport_dies 1 audience)).2 in
  disconnect_client 1 w = (Raise ValueError, w) /\
  (websocket_connection_handler 1 Gone w).1 = Raise ValueError.
Proof.
  intros w. apply (remove_absent_raises w 1).
  vm_compute. intros H. inversion H as [|? ? ? H']; subst.
  inversion H' as [|? ? ? H'']; subst. inversion H''.
Defined.

(** A client sends a roster of its own making. *)
Lemma other_information_changes_nothing_stage :
  handle_message 2 (connected_clients_message (JList [])) stage = (Return tt, stage).
Proof.
  apply (other_information_changes_nothing stage 2 _ (JStr "connected_clients")
           (JObj [("type", JStr "connected_clients"); ("data", JList [])])).
  - repeat split; reflexivity.
  - discriminate.
Defined.

(* ================================================================= *)
(** ** Role names and the roster *)

(** X1.  [get_client_type] and [value] are inverse to each other: a role
    name is mapped to a type exactly when it is the string that is the
    value of that type, so ["app"], ["controller"] and ["device"], in
    this spelling, are the only names that give a type. *)
Theorem get_client_type_value (role : json) (t : MeffecClientType.t) :
  MeffecClientType.get_client_type role = Some t <->
  role = JStr (MeffecClientType.value t).
Proof.
  split.
  - destruct role as [| | |s| |]; try discriminate.
    unfold MeffecClientType.get_client_type. simpl.
    destruct (String.eqb_spec s "app") as [->|_]; [by intros [= <-]|].
    destruct (String.eqb_spec s "controller") as [->|_]; [by intros [= <-]|].
    destruct (String.eqb_spec s "device") as [->|_]; [by intros [= <-]|].
    discriminate.
  - intros ->. by destruct t.
Qed.

Lemma roster_of_typed w l :
  (forall c, c ∈ l -> typed w c) ->
  exists roster,
    roster_of w l = Return roster /\
    Forall2 (fun c info => get_controller_information (client_of w c) = Return info) l roster.
Proof.
  induction l as [|c l IH]; intros Hall; simpl.
  - exists []. split; [done|constructor].
  - destruct IH as (roster & -> & Hf); [intros; apply Hall; by right|].
    assert (typed w c) as Hc by (apply Hall; left).
    unfold typed in Hc. unfold get_controller_information at 1.
    destruct (type (client_of w c)) as [t|] eqn:Et; [|done].
    eexists. split; [done|]. constructor; [|done].
    unfold get_controller_information. by rewrite Et.
Qed.

(** X2.  With a controller whose transport is open and a registry of
    sessions that all have a type, the roster push returns having sent
    the controller one [connected_clients] frame and changed nothing
    else; the roster in it has one entry per session of the registry, in
    registry order and with repetitions, and each entry is the
    [{"type", "name"}] of that session's client object. *)
Theorem roster_is_the_registry (w : World) (controller : WebSocket) :
  controller_of w = Some controller ->
  controller ∉ closed w ->
  (forall c, c ∈ clients_of w -> typed w c) ->
  exists roster,
    send_connected_clients_to_controller w =
    (Return tt, add_wire w [(controller, connected_clients_frame roster)]) /\
    length roster = length (clients_of w) /\
    forall i c, clients_of w !! i = Some c ->
      exists t,
        type (client_of w c) = Some t /\
        roster !! i = Some (JObj [("type", JStr (MeffecClientType.value t));
                                  ("name", name (client_of w c))]).
Proof.
  intros Hctl Hopen Hall.
  destruct (roster_of_typed w (clients_of w) Hall) as (roster & Hr & Hf).
  exists roster. split; [|split].
  - unfold send_connected_clients_to_controller. rewrite Hctl.
    unfold bind, lift. rewrite Hr. by apply send_open.
  - symmetry. by eapply Forall2_length.
  - intros i c Hi.
    destruct (Forall2_lookup_l _ _ _ _ _ Hf Hi) as (info & Hinfo & Hget).
    unfold get_controller_information in Hget.
    destruct (type (client_of w c)) as [t|]; [|done].
    exists t. split; [done|]. by injection Hget as <-.
Qed.

(* ================================================================= *)
(** ** Broadcasts over open transports *)

(** A loop whose body, on the worlds the loop goes through, sends one
    frame to the session at hand: every session of the registry gets
    the frame, in registry order. *)
Lemma for_client_sends (frame : json) (body : WebSocket -> M unit) (w : World) :
  (forall c sent, c ∈ clients_of w ->
     body c (add_wire w sent) = (Return tt, add_wire w (sent ++ [(c, frame)]))) ->
  for_client body w =
  (Return tt, add_wire w (map (fun c => (c, frame)) (clients_of w))).
Proof.
  intros Hbody.
  assert (forall fuel i sent,
    length (clients_of w) <= fuel + i ->
    for_client_from fuel i body (add_wire w sent) =
    (Return tt, add_wire w (sent ++ map (fun c => (c, frame)) (drop i (clients_of w)))))
    as Hgen.
  { induction fuel as [|fuel IH]; intros i sent Hlen; cbn [for_client_from].
    - change (clients_of (add_wire w sent)) with (clients_of w).
      rewrite lookup_ge_None_2 by lia. rewrite drop_ge by lia.
      simpl. by rewrite app_nil_r.
    - change (clients_of (add_wire w sent)) with (clients_of w).
      destruct (clients_of w !! i) as [c|] eqn:E.
      + rewrite Hbody by (by eapply list_elem_of_lookup_2).
        rewrite IH by lia. rewrite (drop_S _ _ _ E). simpl.
        by rewrite <- app_assoc.
      + apply lookup_ge_None in E. rewrite drop_ge by lia.
        simpl. by rewrite app_nil_r. }
  unfold for_client. rewrite <- (add_wire_nil w) at 2.
  rewrite Hgen by (simpl; lia). by rewrite drop_0.
Qed.

(** X3.  A message whose type is none of ["authentication"],
    ["information"] and ["device_action"] (a [play_effect], a
    [heartbeat], any other value), while the transports of the registry
    are open: handling it returns having sent the message as it came to
    every session of the registry, the sender included, in registry
    order, and having changed nothing else. *)
Theorem relay_reaches_everyone (w : World) (sender : WebSocket)
    (message message_type : json) :
  getitem message "type" = Return message_type ->
  message_type <> JStr "authentication" ->
  message_type <> JStr "information" ->
  message_type <> JStr "device_action" ->
  (forall c, c ∈ clients_of w -> c ∉ closed w) ->
  handle_message sender message w =
  (Return tt, add_wire w (map (fun c => (c, message)) (clients_of w))).
Proof.
  intros Htype Ha Hi Hd Hopen.
  unfold handle_message, bind at 1, lift at 1. rewrite Htype. simpl.
  rewrite !eq_str_false by done.
  unfold relay_message_to_all_clients.
  apply for_client_sends. intros c sent Hc.
  unfold try_except. rewrite send_open by (by apply Hopen).
  by rewrite add_wire_app.
Qed.

Lemma heartbeat_pass_open (w : World) :
  (forall c, c ∈ clients_of w -> c ∉ closed w) ->
  heartbeat_pass w =
  (Return tt, add_wire w (map (fun c => (c, heartbeat_frame)) (clients_of w))).
Proof.
  intros Hopen. unfold heartbeat_pass.
  apply for_client_sends. intros c sent Hc.
  unfold try_except. rewrite send_open by (by apply Hopen).
  by rewrite add_wire_app.
Qed.

(** X4.  While the transports of the registry are open, [ticks] rounds
    of the heartbeat loop return having sent each session [ticks]
    heartbeat frames, one per round in registry order, and having slept
    [interval] after each round; the registry, the controller reference
    and the catalog are as before. *)
Theorem heartbeat_rounds_open (ticks interval : nat) (w : World) :
  (forall c, c ∈ clients_of w -> c ∉ closed w) ->
  send_heartbeat_to_all_clients ticks interval w =
  (Return tt,
   with_clock
     (add_wire w (concat (replicate ticks
                    (map (fun c => (c, heartbeat_frame)) (clients_of w)))))
     (now w + ticks * interval)).
Proof.
  revert w. induction ticks as [|ticks IH]; intros w Hopen.
  - simpl. unfold ret. rewrite add_wire_nil. destruct w; unfold with_clock; simpl.
    by rewrite Nat.add_0_r.
  - cbn [send_heartbeat_to_all_clients]. unfold bind at 1.
    rewrite heartbeat_pass_open by done.
    unfold bind at 1, sleep at 1. cbn [fst snd].
    rewrite IH by done.
    unfold with_clock, add_wire, clients_of. simpl.
    rewrite <- app_assoc, Nat.add_assoc. reflexivity.
Qed.

(* ================================================================= *)
(** ** Eviction by the heartbeat *)

Section SweepWithPushes.
Variable frame : json.
Variable handler : WebSocket -> M unit.
Variable w : World.

(** The registries on which the handler of a failed send removes the
    session and returns, having at most written to the wire. *)
Variable ok : list WebSocket -> Prop.
Hypothesis ok_remove : forall pre c rest, ok (pre ++ c :: rest) -> ok (pre ++ rest).
Hypothesis handler_removes : forall c l l' sent,
  ok l -> list_remove c l = Return l' ->
  exists frames,
    handler c (add_wire (with_clients w l) sent) =
    (Return tt, add_wire (with_clients w l') (sent ++ frames)).

Lemma sweep_with_pushes_from (fuel : nat) : forall pre rest sent,
  NoDup (pre ++ rest) ->
  length rest <= fuel ->
  ok (pre ++ rest) ->
  exists frames,
    for_client_from fuel (length pre)
      (fun c => try_except (send c frame) ConnectionClosed (handler c))
      (add_wire (with_clients w (pre ++ rest)) sent) =
    (Return tt, add_wire (with_clients w (pre ++ sweep (is_closed w) rest)) frames).
Proof.
  induction fuel as [|fuel IH]; intros pre rest sent Hnd Hlen Hok.
  - destruct rest; [|simpl in Hlen; lia].
    exists sent. cbn [for_client_from]. unfold clients_of at 1. cbn.
    by rewrite lookup_ge_None_2 by (rewrite length_app; simpl; lia).
  - destruct rest as [|c rest].
    { exists sent. cbn [for_client_from]. unfold clients_of at 1. cbn.
      by rewrite lookup_ge_None_2 by (rewrite length_app; simpl; lia). }
    cbn [for_client_from]. unfold clients_of at 1.
    cbn [with_clients add_wire server_information connected_clients].
    rewrite list_lookup_middle by done.
    assert (c ∉ pre) as Hc.
    { apply NoDup_app in Hnd as (_ & Hdis & _). intros Hin.
      apply (Hdis c Hin). left. }
    unfold try_except. cbn [sweep].
    destruct (is_closed w c) eqn:Hd; unfold is_closed in Hd.
    + apply bool_decide_eq_true_1 in Hd.
      rewrite send_closed by done. cbn [exn_eqb].
      destruct (handler_removes c _ (pre ++ rest) sent Hok (list_remove_middle c pre rest Hc))
        as [fs ->].
      apply ok_remove in Hok.
      destruct rest as [|d rest].
      * exists (sent ++ fs).
        destruct fuel; cbn [for_client_from]; unfold clients_of at 1; cbn;
          by rewrite lookup_ge_None_2 by (rewrite length_app; simpl; lia).
      * assert (S (length pre) = length (pre ++ [d])) as ->
          by (rewrite length_app; simpl; lia).
        assert (NoDup ((pre ++ [d]) ++ rest)) as Hnd'.
        { rewrite <- app_assoc. simpl.
          apply NoDup_app in Hnd as (Hp & Hdis & Hr).
          apply NoDup_cons in Hr as [_ Hr].
          apply NoDup_app. split; [done|]. split; [|done].
          intros x Hx Hx'. apply (Hdis x Hx). by right. }
        destruct fuel as [|fuel']; [simpl in Hlen; lia|].
        destruct (IH (pre ++ [d]) rest (sent ++ fs) Hnd') as [frames Hf].
        { simpl in Hlen. lia. }
        { by rewrite <- app_assoc. }
        rewrite <- !app_assoc in Hf. simpl in Hf. by exists frames.
    + apply bool_decide_eq_false_1 in Hd.
      rewrite send_open by done.
      assert (S (length pre) = length (pre ++ [c])) as ->
        by (rewrite length_app; simpl; lia).
      assert (NoDup ((pre ++ [c]) ++ rest)) as Hnd' by (by rewrite <- app_assoc).
      destruct (IH (pre ++ [c]) rest (sent ++ [(c, frame)]) Hnd') as [frames Hf].
      { simpl in Hlen. lia. }
      { by rewrite <- app_assoc. }
      rewrite <- !app_assoc in Hf. simpl in Hf.
      rewrite add_wire_app. by exists frames.
Qed.
End SweepWithPushes.

Lemma sweep_at_dead (dead : WebSocket -> bool) (c d : WebSocket) (l : list WebSocket) :
  dead c = true -> sweep dead (c :: d :: l) = d :: sweep dead l.
Proof. intros E. simpl. by rewrite E. Qed.

Lemma sweep_at_last_dead (dead : WebSocket -> bool) (c : WebSocket) :
  dead c = true -> sweep dead [c] = [].
Proof. intros E. simpl. by rewrite E. Qed.

Lemma sweep_at_live (dead : WebSocket -> bool) (c : WebSocket) (l : list WebSocket) :
  dead c = false -> sweep dead (c :: l) = c :: sweep dead l.
Proof. intros E. simpl. by rewrite E. Qed.

Lemma sweep_sublist (dead : WebSocket -> bool) (l : list WebSocket) :
  sweep dead l `sublist_of` l /\ forall c, sweep dead (c :: l) `sublist_of` (c :: l).
Proof.
  induction l as [|d l [IH1 IH2]].
  - split; [done|]. intros c. destruct (dead c) eqn:E.
    + rewrite sweep_at_last_dead by done. by apply sublist_nil_l.
    + by rewrite sweep_at_live.
  - split; [apply IH2|]. intros c. destruct (dead c) eqn:E.
    + rewrite sweep_at_dead by done. apply sublist_cons. by apply sublist_skip.
    + rewrite sweep_at_live by done. apply sublist_skip. apply IH2.
Qed.

Lemma sweep_keeps_live (dead : WebSocket -> bool) (l : list WebSocket) :
  filter (fun c => dead c = false) (sweep dead l) = filter (fun c => dead c = false) l /\
  forall c, filter (fun c => dead c = false) (sweep dead (c :: l)) =
            filter (fun c => dead c = false) (c :: l).
Proof.
  induction l as [|d l [IH1 IH2]].
  - split; [done|]. intros c. destruct (dead c) eqn:E.
    + rewrite sweep_at_last_dead by done.
      rewrite filter_cons, decide_False; [done|]. by rewrite E.
    + by rewrite sweep_at_live.
  - split; [apply IH2|]. intros c. destruct (dead c) eqn:E.
    + rewrite sweep_at_dead by done.
      rewrite (filter_cons _ c), decide_False by (by rewrite E).
      by rewrite !(filter_cons _ d), IH1.
    + rewrite sweep_at_live by done.
      rewrite !(filter_cons _ c). destruct (decide (dead c = false)); [|done].
      by rewrite IH2.
Qed.

Lemma sweep_removes_a_dead (dead : WebSocket -> bool) (l : list WebSocket) :
  let nd l := length (filter (fun c => dead c = true) l) in
  (nd (sweep dead l) <= nd l /\ (0 < nd l -> nd (sweep dead l) < nd l)) /\
  forall c, nd (sweep dead (c :: l)) <= nd (c :: l) /\
            (0 < nd (c :: l) -> nd (sweep dead (c :: l)) < nd (c :: l)).
Proof.
  intros nd.
  assert (forall c x, dead c = true -> nd (c :: x) = S (nd x)) as Hdead.
  { intros c x E. unfold nd. by rewrite filter_cons, decide_True. }
  assert (forall c x, dead c = false -> nd (c :: x) = nd x) as Hlive.
  { intros c x E. unfold nd. rewrite filter_cons, decide_False; [done|]. by rewrite E. }
  assert (forall c x, nd x <= nd (c :: x)) as Hmono.
  { intros c x. destruct (dead c) eqn:E; [rewrite Hdead by done|rewrite Hlive by done]; lia. }
  induction l as [|d l [[IH1 IH1'] IH2]].
  - split; [split; [done|unfold nd; simpl; lia]|].
    intros c. destruct (dead c) eqn:E.
    + rewrite sweep_at_last_dead, Hdead by done. unfold nd. simpl. lia.
    + rewrite sweep_at_live, !Hlive by done. unfold nd. simpl. lia.
  - split; [apply IH2|]. intros c. destruct (dead c) eqn:E.
    + rewrite sweep_at_dead, (Hdead c) by done.
      pose proof (Hmono d (sweep dead l)) as H1.
      destruct (dead d) eqn:Ed.
      * rewrite !(Hdead d) by done. lia.
      * rewrite !(Hlive d) by done. lia.
    + rewrite sweep_at_live, !(Hlive c) by done. apply IH2.
Qed.

Lemma healthy_disconnect (w : World) (c : WebSocket) (l l' : list WebSocket)
    (sent : list (WebSocket * json)) :
  healthy (with_clients w l) ->
  list_remove c l = Return l' ->
  (forall x, x ∈ l' -> x ∈ l) ->
  exists frames,
    disconnect_client c (add_wire (with_clients w l) sent) =
    (Return tt, add_wire (with_clients w l') (sent ++ frames)).
Proof.
  intros Hh Hl Hsub.
  unfold disconnect_client, remove_connected_client, bind at 1 2, lift.
  change (clients_of (add_wire (with_clients w l) sent)) with l. rewrite Hl.
  cbn [set_connected_clients set_server_information].
  unfold send_connected_clients_to_controller.
  unfold healthy in Hh.
  change (controller_of (with_clients w l)) with (controller_of w) in Hh.
  unfold controller_of at 1. cbn. fold (controller_of w).
  destruct (controller_of w) as [k|] eqn:Ek.
  - destruct Hh as [Hopen Htyped].
    set (w' := {| server_information := _ |}).
    destruct (roster_of_typed w' (clients_of w')) as (roster & Hr & _).
    { intros x Hx. apply (Htyped x). apply Hsub. exact Hx. }
    change (clients_of w') with l' in Hr.
    unfold bind, lift. rewrite Hr. rewrite send_open by done.
    exists [(k, connected_clients_frame roster)].
    unfold add_wire, with_clients, w'; simpl.
    rewrite Ek. by rewrite <- app_assoc.
  - exists []. unfold add_wire, with_clients; simpl.
    rewrite Ek. by rewrite app_nil_r.
Qed.

Lemma list_remove_subset (c : WebSocket) (l l' : list WebSocket) :
  list_remove c l = Return l' -> forall x, x ∈ l' -> x ∈ l.
Proof.
  revert l'. induction l as [|y l IH]; intros l' H x Hx; simpl in H; [done|].
  destruct (Nat.eqb y c); [injection H as <-; by right|].
  destruct (list_remove c l) as [l''| |]; try done. injection H as <-.
  apply elem_of_cons in Hx as [->|Hx]; [left|right]. by eapply IH.
Qed.

(** One heartbeat pass in a healthy world whose registry holds no
    session twice: it returns, and what it leaves of the registry is the
    sweep of it. *)
Lemma heartbeat_pass_healthy (w : World) :
  NoDup (clients_of w) ->
  healthy w ->
  exists frames,
    heartbeat_pass w =
    (Return tt, add_wire (with_clients w (sweep (is_closed w) (clients_of w))) frames).
Proof.
  intros Hnd Hh. unfold heartbeat_pass, for_client.
  set (ok := fun l => healthy (with_clients w l) /\ forall x, x ∈ l -> x ∈ clients_of w).
  assert (forall pre c rest, ok (pre ++ c :: rest) -> ok (pre ++ rest)) as Hok_remove.
  { intros pre c rest [Hok Hsub].
    assert (forall x, x ∈ pre ++ rest -> x ∈ pre ++ c :: rest) as Hin.
    { intros x Hx. apply elem_of_app in Hx as [Hx|Hx]; apply elem_of_app;
        [by left|right; by right]. }
    split; [|intros x Hx; by apply Hsub, Hin].
    unfold healthy in *.
    change (controller_of (with_clients w (pre ++ rest))) with (controller_of w).
    change (controller_of (with_clients w (pre ++ c :: rest))) with (controller_of w) in Hok.
    destruct (controller_of w); [|done]. destruct Hok as [Ho Ht]. split; [done|].
    intros x Hx. apply (Ht x). by apply Hin. }
  assert (forall c l l' sent, ok l -> list_remove c l = Return l' ->
            exists frames,
              disconnect_client c (add_wire (with_clients w l) sent) =
              (Return tt, add_wire (with_clients w l') (sent ++ frames))) as Hhandler.
  { intros c l l' sent [Hok Hsub] Hl. apply healthy_disconnect; try done.
    by apply list_remove_subset with c. }
  assert (ok ([] ++ clients_of w)) as Hok0.
  { split; [|done]. simpl. by rewrite with_clients_same. }
  destruct (sweep_with_pushes_from heartbeat_frame disconnect_client w ok
              Hok_remove Hhandler (length (clients_of w)) [] (clients_of w) []
              Hnd (le_n _) Hok0) as [frames Hf].
  simpl in Hf. rewrite with_clients_same, add_wire_nil in Hf. by exists frames.
Qed.

Lemma filter_open_all (w : World) (l : list WebSocket) :
  length (filter (fun c => c ∈ closed w) l) = 0 ->
  filter (fun c => c ∉ closed w) l = l.
Proof.
  induction l as [|c l IH]; [done|]. rewrite !filter_cons.
  destruct (decide (c ∈ closed w)) as [Hc|Hc]; [done|].
  intros H. rewrite decide_True by done. by rewrite IH.
Qed.

(** X5.  In a world where the roster push cannot fail (no controller,
    or a controller with an open transport and a registry of typed
    sessions) and the registry holds no session twice, as many heartbeat
    rounds as there are dead sessions in the registry, or more, return
    and leave in the registry exactly the sessions whose transport is
    open, in their order; the controller reference is untouched and the
    clock has advanced by [interval] per round. *)
Theorem dead_sessions_are_evicted (ticks interval : nat) (w : World) :
  NoDup (clients_of w) ->
  healthy w ->
  length (filter (fun c => c ∈ closed w) (clients_of w)) <= ticks ->
  let r := send_heartbeat_to_all_clients ticks interval w in
  r.1 = Return tt /\
  clients_of r.2 = filter (fun c => c ∉ closed w) (clients_of w) /\
  controller_of r.2 = controller_of w /\
  now r.2 = now w + ticks * interval.
Proof.
  assert (forall (w : World) (l : list WebSocket),
            filter (fun c => c ∈ closed w) l =
            filter (fun c => is_closed w c = true) l) as Hdead.
  { intros w' l. apply list_filter_iff. intros c. unfold is_closed.
    by rewrite bool_decide_eq_true. }
  assert (forall (w : World) (l : list WebSocket),
            filter (fun c => c ∉ closed w) l =
            filter (fun c => is_closed w c = false) l) as Hlive.
  { intros w' l. apply list_filter_iff. intros c. unfold is_closed.
    by rewrite bool_decide_eq_false. }
  revert w. induction ticks as [|ticks IH]; intros w Hnd Hh Hlen r; subst r.
  - simpl. split; [done|]. split; [|split; [done|lia]].
    symmetry. apply filter_open_all. lia.
  - destruct (heartbeat_pass_healthy w Hnd Hh) as [frames Hpass].
    set (w1 := with_clock
                 (add_wire (with_clients w (sweep (is_closed w) (clients_of w))) frames)
                 (now w + interval)).
    assert (send_heartbeat_to_all_clients (S ticks) interval w =
            send_heartbeat_to_all_clients ticks interval w1) as ->.
    { cbn [send_heartbeat_to_all_clients]. unfold bind at 1. rewrite Hpass.
      unfold bind at 1, sleep. reflexivity. }
    assert (clients_of w1 = sweep (is_closed w) (clients_of w)) as Hc1 by done.
    assert (closed w1 = closed w) as Hcl by done.
    assert (controller_of w1 = controller_of w) as Hk by done.
    pose proof (sweep_sublist (is_closed w) (clients_of w)) as [Hsub _].
    pose proof (sweep_keeps_live (is_closed w) (clients_of w)) as [Hkeep _].
    pose proof (sweep_removes_a_dead (is_closed w) (clients_of w)) as [[Hle Hlt] _].
    cbv zeta in Hle, Hlt.
    rewrite Hdead in Hlen.
    destruct (IH w1) as (H1 & H2 & H3 & H4).
    + rewrite Hc1. by eapply sublist_NoDup.
    + unfold healthy in *. rewrite Hk, Hcl.
      destruct (controller_of w); [|done]. destruct Hh as [Ho Ht]. split; [done|].
      intros c Hc. rewrite Hc1 in Hc.
      apply (Ht c). eapply elem_of_sublist; [exact Hc|exact Hsub].
    + rewrite Hdead, Hc1.
      change (is_closed w1) with (is_closed w). lia.
    + split; [done|]. split; [|split].
      * rewrite H2, Hc1, !Hlive.
        change (is_closed w1) with (is_closed w). exact Hkeep.
      * by rewrite H3.
      * rewrite H4. unfold w1. simpl. lia.
Qed.

(* ================================================================= *)
(** ** The end of a session *)

Lemma forget_controller_fields w c :
  clients_of (forget_controller w c) = clients_of w /\
  effects_of (forget_controller w c) = effects_of w /\
  objects (forget_controller w c) = objects w /\
  closed (forget_controller w c) = closed w /\
  wire (forget_controller w c) = wire w /\
  controller_of (forget_controller w c) <> Some c /\
  (forall k, controller_of (forget_controller w c) = Some k -> controller_of w = Some k).
Proof.
  unfold forget_controller. case_bool_decide as Hc; simpl; repeat split; done.
Qed.

(** The [finally] block for a session of the registry. *)
Lemma cleanup_present (w : World) (c : WebSocket) :
  c ∈ clients_of w ->
  exists l frames,
    list_remove c (clients_of w) = Return l /\
    (cleanup c w).2 = add_wire (with_clients (forget_controller w c) l) frames /\
    Forall (fun f => controller_of w = Some f.1 /\ f.1 <> c) frames /\
    (cleanup c w).1 <> NoFuel /\
    (healthy (with_clients (forget_controller w c) l) -> (cleanup c w).1 = Return tt).
Proof.
  intros Hin.
  destruct (forget_controller_fields w c) as (Hcl & _ & _ & _ & _ & Hne & Hsame).
  assert (cleanup c w = disconnect_client c (forget_controller w c)) as ->.
  { unfold cleanup, bind at 1, forget_controller.
    case_bool_decide; [|done]. by destruct w as [[cl ef cc] ob cs wi nw]. }
  set (w' := forget_controller w c) in *.
  destruct (list_remove_present c (clients_of w) Hin) as (l & Hl & _).
  assert (disconnect_client c w' =
          send_connected_clients_to_controller (with_clients w' l)) as ->.
  { unfold disconnect_client, bind at 1, remove_connected_client, bind at 1, lift.
    by rewrite Hcl, Hl. }
  pose proof (roster_push_cases (with_clients w' l)) as Hp.
  pose proof (roster_push_frame (with_clients w' l)) as (frames & Hw & Hall).
  exists l, frames. split; [done|]. split; [done|]. split.
  { eapply Forall_impl; [exact Hall|]. intros f Hf. simpl in Hf.
    change (controller_of (with_clients w' l)) with (controller_of w') in Hf.
    split; [by apply Hsame|]. intros Heq. rewrite Heq in Hf. by apply Hne. }
  split; [apply roster_push_ends|].
  intros Hh. unfold healthy in Hh.
  destruct (controller_of (with_clients w' l)) as [k|] eqn:Ek; [|by rewrite Hp].
  destruct Hh as [Hopen Htyped].
  destruct (roster_of_typed _ _ Htyped) as (roster & Hr & _).
  unfold send_connected_clients_to_controller. rewrite Ek.
  unfold bind, lift. rewrite Hr. by rewrite send_open.
Qed.

Lemma gone_is_cleanup (w : World) (c : WebSocket) :
  (websocket_connection_handler c Gone w).2 = (cleanup c w).2.
Proof.
  unfold websocket_connection_handler.
  by destruct (cleanup c w) as [[[]|e|] w'].
Qed.

Lemma getitem_raises (obj : json) (key : string) (e : exn) :
  getitem obj key = Raise e -> e = KeyError \/ e = TypeError.
Proof.
  destruct obj as [| | | | |fields]; simpl; try (intros [= <-]; by right).
  induction fields as [|[k v] fields IH]; simpl; [intros [= <-]; by left|].
  destruct (String.eqb k key); [done|]. exact IH.
Qed.

(** X6.  When the peer of a registered session is gone, the handler
    takes the first entry of that session out of the registry, drops the
    controller reference if it is that session and leaves it alone
    otherwise, and writes nothing but roster frames for the controller
    that remains, never for the session itself; the loop does not go
    on.  When the roster push cannot fail in the world so reached, the
    handler returns. *)
Theorem connection_closed_removes_session (w : World) (c : WebSocket) :
  c ∈ clients_of w ->
  let r := websocket_connection_handler c Gone w in
  exists l frames,
    list_remove c (clients_of w) = Return l /\
    r.2 = add_wire (with_clients (forget_controller w c) l) frames /\
    Forall (fun f => controller_of w = Some f.1 /\ f.1 <> c) frames /\
    r.1 <> Return Running /\
    (healthy (with_clients (forget_controller w c) l) -> r.1 = Return Ended).
Proof.
  intros Hin r. subst r.
  destruct (cleanup_present w c Hin) as (l & frames & Hl & Hw & Hall & Hends & Hok).
  exists l, frames. unfold websocket_connection_handler.
  destruct (cleanup c w) as [[[]|e|] w'] eqn:E; simpl in *; try done.
  repeat split; try done. intros Hh. by specialize (Hok Hh).
Qed.

(** X7.  A message that is no dict, or a dict without a ["type"] key,
    sent by a registered session: subscripting it raises before
    anything is done, and the error leaves the read loop, so the handler
    ends the session as on a lost connection, by the cleanup alone; when
    the roster push cannot fail there, the handler dies with that very
    error. *)
Theorem message_without_type_ends_session (w : World) (c : WebSocket)
    (message : json) (e : exn) :
  getitem message "type" = Raise e ->
  c ∈ clients_of w ->
  let r := websocket_connection_handler c (Message message) w in
  handle_message c message w = (Raise e, w) /\
  r.2 = (cleanup c w).2 /\
  (exists e', r.1 = Raise e') /\
  ((cleanup c w).1 = Return tt -> r.1 = Raise e).
Proof.
  intros Htype Hin r. subst r.
  assert (handle_message c message w = (Raise e, w)) as Hm.
  { unfold handle_message, bind, lift. by rewrite Htype. }
  split; [done|].
  unfold websocket_connection_handler. rewrite Hm.
  assert (exn_eqb e ConnectionClosed = false) as Heq.
  { by destruct (getitem_raises _ _ _ Htype) as [-> | ->]. }
  pose proof (cleanup_ends c w) as Hends.
  destruct (cleanup c w) as [[[]|e'|] w']; simpl in *; rewrite ?Heq; try done.
  - repeat split; eauto.
  - repeat split; eauto. intros H. discriminate.
Qed.

(** X8.  A connection that is accepted and then lost, by a websocket
    that is new to the registry and is not the controller reference: the
    registry and the controller reference are again what they were, and
    the handler has written nothing but roster frames for that
    controller. *)
Theorem accept_then_close (w : World) (websocket : WebSocket) :
  websocket ∉ clients_of w ->
  controller_of w <> Some websocket ->
  let r := (accept websocket ;;; websocket_connection_handler websocket Gone) w in
  clients_of r.2 = clients_of w /\
  controller_of r.2 = controller_of w /\
  effects_of r.2 = effects_of w /\
  exists frames,
    wire r.2 = wire w ++ frames /\
    Forall (fun f => controller_of w = Some f.1) frames.
Proof.
  intros Hnew Hctl r. subst r.
  set (w1 := with_clients (with_client w websocket new_client)
                          (clients_of w ++ [websocket])).
  assert ((accept websocket ;;; websocket_connection_handler websocket Gone) w =
          websocket_connection_handler websocket Gone w1) as ->.
  { unfold bind at 1, accept, bind, set_client, set_connected_clients,
      set_server_information. by destruct w as [[cl ef cc] ob cs wi nw]. }
  assert (clients_of w1 = clients_of w ++ [websocket]) as Hc1 by done.
  assert (websocket ∈ clients_of w1) as Hin.
  { rewrite Hc1. apply elem_of_app. right. left. }
  rewrite gone_is_cleanup.
  destruct (cleanup_present w1 websocket Hin) as (l & frames & Hl & Hw & Hall & _).
  rewrite Hc1, list_remove_middle in Hl by done. injection Hl as <-.
  rewrite app_nil_r in Hw.
  assert (forget_controller w1 websocket = w1) as Hf.
  { unfold forget_controller. by rewrite bool_decide_eq_false_2. }
  rewrite Hf in Hw. rewrite Hw. simpl.
  repeat split; try done.
  exists frames. split; [done|].
  eapply Forall_impl; [exact Hall|]. by intros f [Hk _].
Qed.

(* ================================================================= *)
(** ** Authentication in detail *)

(** X9.  An authentication whose role name gives the type [t]: whatever
    the sends that follow do, the session has this type and the name
    sent, the objects of the other sessions, the registry and the
    catalog are untouched, and the controller reference is the session
    when [t] is the controller type and is left as it was otherwise, so
    that a controller that authenticates again as an app or a device
    stays the controller reference. *)
Theorem authentication_sets_role (w : World) (client : WebSocket)
    (message role client_name : json) (t : MeffecClientType.t) :
  authentication message role client_name ->
  MeffecClientType.get_client_type role = Some t ->
  let w' := (handle_message client message w).2 in
  client_of w' client = {| type := Some t; name := client_name |} /\
  (forall other, other <> client -> client_of w' other = client_of w other) /\
  clients_of w' = clients_of w /\
  effects_of w' = effects_of w /\
  controller_of w' =
  (if MeffecClientType.eqb t MeffecClientType.CONTROLLER then Some client
   else controller_of w).
Proof.
  intros Hauth Hrole w'. subst w'.
  rewrite (handle_authentication w client message role client_name Hauth).
  cbv zeta. rewrite Hrole.
  set (w1 := authenticated w client (Some t) client_name).
  assert (exists frames,
    ((match t with
      | MeffecClientType.APP => send_effects_to_app_client client
      | _ => ret tt
      end ;;; send_connected_clients_to_controller) w1).2 = add_wire w1 frames)
    as [frames ->].
  { unfold bind.
    assert (exists f1, (match t with
                        | MeffecClientType.APP => send_effects_to_app_client client
                        | _ => ret tt
                        end w1).2 = add_wire w1 f1) as [f1 E1].
    { destruct t; try (exists []; by rewrite add_wire_nil).
      apply send_only_wire. }
    destruct (match t with
              | MeffecClientType.APP => send_effects_to_app_client client
              | _ => ret tt
              end w1) as [[[]|e|] w2]; simpl in E1; subst w2; eauto.
    destruct (roster_push_frame (add_wire w1 f1)) as (f2 & -> & _).
    exists (f1 ++ f2). by rewrite add_wire_app. }
  unfold client_of, w1; simpl. rewrite lookup_insert_eq. split; [done|].
  split; [intros other Hother; by rewrite lookup_insert_ne|].
  split; [done|]. split; [done|]. by destruct t.
Qed.

(** X10.  An authentication without a ["name"]: the type named is
    already stored on the session when the lookup of the name raises
    [KeyError], and nothing else has happened: the name is the old one,
    nothing was sent, and the controller reference is as before, also
    when the role is ["controller"]. *)
Theorem authentication_without_name (w : World) (client : WebSocket)
    (message data role : json) (e : exn) :
  envelope message "authentication" data ->
  getitem data "type" = Return role ->
  getitem data "name" = Raise e ->
  handle_message client message w =
  (Raise e,
   with_client w client
     {| type := MeffecClientType.get_client_type role;
        name := name (client_of w client) |}).
Proof.
  intros [Htype Hdata] Hrole Hname.
  unfold handle_message, bind at 1, lift at 1. rewrite Htype. simpl.
  unfold bind at 1, lift at 1. rewrite Hdata.
  unfold authenticate_client, bind, lift. by rewrite Hrole, Hname.
Qed.

(** X11.  A session whose transport is open authenticates as an app:
    the first thing sent is the stored catalog, to that session, in an
    [available_effects] frame; what follows on the wire are roster
    frames for the controller only. *)
Theorem app_gets_catalog_on_authentication (w : World) (client : WebSocket)
    (message client_name : json) :
  authentication message (JStr "app") client_name ->
  client ∉ closed w ->
  exists frames,
    (handle_message client message w).2 =
    add_wire (authenticated w client (Some MeffecClientType.APP) client_name)
             ((client, available_effects_frame (effects_of w)) :: frames) /\
    Forall (fun f => controller_of w = Some f.1) frames.
Proof.
  intros Hauth Hopen.
  rewrite (handle_authentication w client message _ client_name Hauth).
  cbv zeta.
  change (MeffecClientType.get_client_type (JStr "app")) with (Some MeffecClientType.APP).
  set (w1 := authenticated w client (Some MeffecClientType.APP) client_name).
  unfold bind, send_effects_to_app_client. rewrite send_open by done.
  destruct (roster_push_frame
              (add_wire w1 [(client, available_effects_frame (effects_of w1))]))
    as (frames & -> & Hall).
  exists frames. split; [by rewrite add_wire_app|done].
Qed.

(* ================================================================= *)
(** ** The token in the request path *)

Lemma prefix_after_other (sep_rest s : string) (a : Ascii.ascii) :
  Ascii.eqb a question_mark = false ->
  String.prefix (String question_mark sep_rest) (String a s) = false.
Proof.
  intros Ha. cbn [String.prefix].
  destruct (Ascii.ascii_dec question_mark a) as [<-|_]; [|done].
  by rewrite Ascii.eqb_refl in Ha.
Qed.

Lemma prefix_same_char (s1 s2 : string) (a : Ascii.ascii) :
  String.prefix (String a s1) (String a s2) = String.prefix s1 s2.
Proof. cbn [String.prefix]. by destruct (Ascii.ascii_dec a a). Qed.

Lemma split_from_at_sep (sep acc rest : string) (c : Ascii.ascii) :
  String.prefix sep (String c rest) = true ->
  split_from sep 0 acc (String c rest) =
  String.rev acc :: split_from sep (String.length sep - 1) EmptyString rest.
Proof. intros H. cbn [split_from]. by rewrite H. Qed.

Lemma split_from_skip (sep acc rest : string) (c : Ascii.ascii) (k : nat) :
  split_from sep (S k) acc (String c rest) = split_from sep k acc rest.
Proof. reflexivity. Qed.

Lemma split_from_token (pre token acc : string) :
  has_char question_mark pre = false ->
  contains token "?token=$" = false ->
  split_from "?token=$" 0 acc (pre +:+ "?token=$" +:+ token) =
  [String.rev_app acc pre; token].
Proof.
  intros Hpre Htoken. revert acc. induction pre as [|a pre IH]; intros acc.
  - let x := eval cbv [String.append] in ("" +:+ "?token=$" +:+ token) in
    change ("" +:+ "?token=$" +:+ token) with x.
    rewrite split_from_at_sep by (rewrite !prefix_same_char; by destruct token).
    change (String.length "?token=$" - 1) with 7.
    rewrite !split_from_skip.
    by rewrite (split_from_absent _ _ Htoken).
  - simpl in Hpre. destruct (Ascii.eqb a question_mark) eqn:Ea; [done|].
    change (String a pre +:+ "?token=$" +:+ token)
      with (String a (pre +:+ "?token=$" +:+ token)).
    cbn [split_from]. rewrite (prefix_after_other _ _ _ Ea).
    by rewrite IH.
Qed.

(** X12.  A request path made of some text without a question mark,
    then [?token=$], then a token in which [?token=$] does not occur
    (the path [/?token=$<token>] the controller asks for):
    [process_request] lets the handshake go on exactly when the token
    is the configured one, and answers with the unauthorized response
    otherwise. *)
Theorem token_in_path_decides (TOKEN pre token : string) :
  has_char question_mark pre = false ->
  contains token "?token=$" = false ->
  process_request TOKEN (pre +:+ "?token=$" +:+ token) =
  if decide (token = TOKEN) then Return None
  else Return (Some (UNAUTHORIZED, [], "Invalid or missing token" +:+ newline)).
Proof.
  intros Hpre Htoken. unfold process_request, split.
  rewrite split_from_token by done. simpl.
  case_decide as Ht.
  - subst. by rewrite String.eqb_refl.
  - by rewrite (proj2 (String.eqb_neq token TOKEN)).
Qed.

(* ================================================================= *)
(** ** The relay over dead transports *)

(** X13.  A message whose type is none of ["authentication"],
    ["information"] and ["device_action"], in a registry that holds no
    session twice: handling it returns; each dead session the loop meets
    is removed from the registry and the session behind it is stepped
    over, getting nothing; the other sessions get the message as it
    came; the controller reference is kept and no roster is pushed. *)
Theorem relay_steps_over_sessions (w : World) (sender : WebSocket)
    (message message_type : json) :
  getitem message "type" = Return message_type ->
  message_type <> JStr "authentication" ->
  message_type <> JStr "information" ->
  message_type <> JStr "device_action" ->
  NoDup (clients_of w) ->
  handle_message sender message w =
  (Return tt,
   add_wire (with_clients w (sweep (is_closed w) (clients_of w)))
            (map (fun c => (c, message)) (reached (is_closed w) (clients_of w)))).
Proof.
  intros Htype Ha Hi Hd Hnd.
  unfold handle_message, bind at 1, lift at 1. rewrite Htype. simpl.
  rewrite !eq_str_false by done.
  by apply relay_message_sweep.
Qed.

(* ================================================================= *)
(** ** The controller and the server *)

Lemma parse_clients_roster (w : World) (l : list WebSocket) (roster : list json) :
  Forall2 (fun c info => get_controller_information (client_of w c) = Return info) l roster ->
  Controller.parse_clients roster =
  Return (map (fun c =>
                 {| Controller.ConnectedMeffecClient.type :=
                      match type (client_of w c) with
                      | Some t => JStr (MeffecClientType.value t)
                      | None => JNull
                      end;
                    Controller.ConnectedMeffecClient.name := name (client_of w c) |}) l).
Proof.
  induction 1 as [|c info l roster Hinfo _ IH]; [done|].
  unfold get_controller_information in Hinfo.
  destruct (type (client_of w c)) as [t|] eqn:Et; [|done]. injection Hinfo as <-.
  simpl. by rewrite IH, Et.
Qed.

Lemma join_strings (sep : string) (items : list json) :
  (forall x, x ∈ items -> exists s, x = JStr s) ->
  exists joined, Controller.join sep items = Return joined.
Proof.
  induction items as [|x items IH]; intros Hall; [by eexists|].
  destruct (Hall x) as [s ->]; [left|].
  destruct IH as [joined Hj]; [intros; apply Hall; by right|].
  cbn [Controller.join]. destruct items; [by eexists|].
  rewrite Hj. by eexists.
Qed.

Lemma join_not_string (sep : string) (items : list json) (x : json) :
  x ∈ items -> (forall s, x <> JStr s) ->
  Controller.join sep items = Raise TypeError.
Proof.
  intros Hin Hx. induction items as [|y items IH]; [by apply elem_of_nil in Hin|].
  apply elem_of_cons in Hin as [<-|Hin].
  - destruct x; try done. by destruct (Hx s).
  - specialize (IH Hin). cbn [Controller.join].
    destruct y; try done. destruct items; [by apply elem_of_nil in Hin|].
    by rewrite IH.
Qed.

(** X14.  The roster the server pushes, read by the controller.  With a
    controller whose transport is open and a registry of typed sessions
    whose names are strings, the server sends the controller one frame,
    and [on_message_received] on that frame returns having emitted
    [connected_clients_received] with one client per session of the
    registry, in registry order, each with the type value and the name
    the server holds, and having logged one line. *)
Theorem roster_reaches_the_operator (to_str : json -> outcome string)
    (w : World) (controller : WebSocket) (h : Controller.WebsocketHandler) :
  controller_of w = Some controller ->
  controller ∉ closed w ->
  (forall c, c ∈ clients_of w -> typed w c) ->
  (forall c, c ∈ clients_of w -> exists s, name (client_of w c) = JStr s) ->
  exists frame names,
    send_connected_clients_to_controller w =
    (Return tt, add_wire w [(controller, frame)]) /\
    Controller.on_message_received to_str frame h =
    (Return tt,
     Controller.emit
       (Controller.connected_clients_received
          (map (fun c =>
                  {| Controller.ConnectedMeffecClient.type :=
                       match type (client_of w c) with
                       | Some t => JStr (MeffecClientType.value t)
                       | None => JNull
                       end;
                     Controller.ConnectedMeffecClient.name := name (client_of w c) |})
               (clients_of w)))
       (Controller.add_log ("Received connected clients: " +:+ names +:+ ".") h)).
Proof.
  intros Hctl Hopen Htyped Hnames.
  destruct (roster_of_typed w (clients_of w) Htyped) as (roster & Hr & Hf).
  destruct (join_strings ", " (map (fun c => name (client_of w c)) (clients_of w)))
    as [names Hj].
  { intros x Hx. apply list_elem_of_fmap in Hx as (c & -> & Hc). by apply Hnames. }
  exists (connected_clients_frame roster), names. split.
  - unfold send_connected_clients_to_controller. rewrite Hctl.
    unfold bind, lift. rewrite Hr. by apply send_open.
  - unfold Controller.on_message_received, connected_clients_frame. simpl.
    unfold Controller.process_information_data. simpl.
    unfold Controller.parse_connected_clients. simpl.
    rewrite (parse_clients_roster w _ _ Hf).
    rewrite map_map. simpl. by rewrite Hj.
Qed.

(** X15.  When a session of such a registry has a name that is not a
    string (the server stores whatever JSON value the authentication
    gave), the controller raises [TypeError] on the roster frame,
    joining the names for its log line: no signal is emitted and nothing
    is logged. *)
Theorem roster_with_a_name_that_is_no_string (to_str : json -> outcome string)
    (w : World) (controller odd : WebSocket) (h : Controller.WebsocketHandler) :
  controller_of w = Some controller ->
  controller ∉ closed w ->
  (forall c, c ∈ clients_of w -> typed w c) ->
  odd ∈ clients_of w ->
  (forall s, name (client_of w odd) <> JStr s) ->
  exists frame,
    send_connected_clients_to_controller w =
    (Return tt, add_wire w [(controller, frame)]) /\
    Controller.on_message_received to_str frame h = (Raise TypeError, h).
Proof.
  intros Hctl Hopen Htyped Hodd Hname.
  destruct (roster_of_typed w (clients_of w) Htyped) as (roster & Hr & Hf).
  exists (connected_clients_frame roster). split.
  - unfold send_connected_clients_to_controller. rewrite Hctl.
    unfold bind, lift. rewrite Hr. by apply send_open.
  - unfold Controller.on_message_received, connected_clients_frame. simpl.
    unfold Controller.process_information_data. simpl.
    unfold Controller.parse_connected_clients. simpl.
    rewrite (parse_clients_roster w _ _ Hf).
    rewrite map_map. simpl.
    rewrite (join_not_string ", " _ (name (client_of w odd))); [done| |done].
    apply list_elem_of_fmap. by exists odd.
Qed.

(** X16.  The catalog on its way to the server.  A connected controller
    sends its categories as one message, also when there are none; the
    server, whoever the sender is, then stores as its catalog the list
    of [{"name", "effects": [{"name", "description"}]}] of those
    categories, in their order, and with open App transports returns
    having pushed that list to every App session.  A controller that is
    not connected sends nothing. *)
Theorem catalog_reaches_the_server (categories : list Controller.EffectsCategory.t)
    (h : Controller.WebsocketHandler) (w : World) (sender : WebSocket) :
  let catalog := JList (map Controller.EffectsCategory.get_app_data categories) in
  let h' := Controller.send_effects_to_server categories h in
  (Controller.connected h = false -> Controller.outbox h' = Controller.outbox h) /\
  (Controller.connected h = true ->
   exists message,
     Controller.outbox h' = Controller.outbox h ++ [message] /\
     effects_of (handle_message sender message w).2 = catalog /\
     ((forall c, c ∈ clients_of w -> has_type w c MeffecClientType.APP = true ->
                 c ∉ closed w) ->
      handle_message sender message w =
      (Return tt,
       add_wire (with_catalog w catalog)
                (map (fun a => (a, available_effects_frame catalog))
                     (sessions_of_type w MeffecClientType.APP))))).
Proof.
  intros catalog h'. subst h'. unfold Controller.send_effects_to_server.
  split; intros Hc; rewrite Hc; simpl; [done|].
  unfold Controller.sendTextMessage. simpl. rewrite Hc. simpl.
  exists (JObj [("type", JStr "information");
                ("data", JObj [("type", JStr "available_effects");
                               ("data", catalog)])]).
  split; [done|].
  assert (available_effects_update
            (JObj [("type", JStr "information");
                   ("data", JObj [("type", JStr "available_effects");
                                  ("data", catalog)])]) catalog) as Hu.
  { eexists. repeat split; reflexivity. }
  rewrite (handle_available_effects w sender _ _ Hu). split.
  - by destruct (send_effects_to_all_prefix (with_catalog w catalog)) as [k ->].
  - intros Hopen. by rewrite send_effects_to_all_open.
Qed.

(** X17.  A device action on its way to the devices.  A connected
    controller sends the action as one message, and the server, while
    the transports of the Device sessions are open, returns having sent
    the action's [data], in a [device_action] frame, to every Device
    session of the registry, whatever device the action names. *)
Theorem device_action_reaches_the_devices (action : Controller.DeviceAction.t)
    (h : Controller.WebsocketHandler) (w : World) (sender : WebSocket) :
  Controller.connected h = true ->
  (forall c, c ∈ clients_of w -> has_type w c MeffecClientType.DEVICE = true ->
             c ∉ closed w) ->
  exists message,
    Controller.outbox (Controller.send_device_action action h) =
    Controller.outbox h ++ [message] /\
    handle_message sender message w =
    (Return tt,
     add_wire w (map (fun d => (d, device_action_frame (Controller.DeviceAction.data action)))
                     (sessions_of_type w MeffecClientType.DEVICE))).
Proof.
  intros Hc Hopen. unfold Controller.send_device_action. rewrite Hc. simpl.
  unfold Controller.sendTextMessage. simpl. rewrite Hc. simpl.
  eexists. split; [done|].
  assert (device_action
            (JObj [("type", JStr "device_action");
                   ("data", JObj [("device", JStr (Controller.DeviceAction.device action));
                                  ("data", Controller.DeviceAction.data action)])])
            (JStr (Controller.DeviceAction.device action))
            (Controller.DeviceAction.data action)) as Hm.
  { eexists. repeat split; reflexivity. }
  destruct (handle_device_action w sender _ _ _ Hm) as (data & Hpay & ->).
  rewrite for_client_stable.
  - apply for_each_send; [|done]. intros c frames.
    unfold bind, lift. rewrite Hpay. reflexivity.
  - intros c w'. destruct (has_type w' c MeffecClientType.DEVICE); [|done].
    unfold bind, lift. rewrite Hpay.
    by destruct (send_only_wire c (device_action_frame (Controller.DeviceAction.data action)) w')
      as [f ->].
Qed.


(** X19.  A [play_effect] from an app to the operator.  While the
    transports of the registry are open, the server relays the message
    to every session, so to any session [k] of the registry, and a
    controller that reads it there emits [play_effect_received] with the
    category and the name of the message, given that the signal takes
    strings as they are. *)
Theorem play_effect_reaches_the_operator (to_str : json -> outcome string)
    (w : World) (sender k : WebSocket) (category effect : string)
    (h : Controller.WebsocketHandler) :
  (forall s, to_str (JStr s) = Return s) ->
  (forall c, c ∈ clients_of w -> c ∉ closed w) ->
  k ∈ clients_of w ->
  let message := play_effect_message category effect in
  (k, message) ∈ wire (handle_message sender message w).2 /\
  Controller.on_message_received to_str message h =
  (Return tt, Controller.emit (Controller.play_effect_received category effect) h).
Proof.
  intros Hstr Hopen Hk message. split.
  - assert (handle_message sender message w =
            (Return tt, add_wire w (map (fun c => (c, message)) (clients_of w)))) as ->.
    { unfold handle_message, bind at 1, lift at 1. simpl.
      unfold relay_message_to_all_clients.
      apply for_client_sends. intros c sent Hc.
      unfold try_except. rewrite send_open by (by apply Hopen).
      by rewrite add_wire_app. }
    simpl. apply elem_of_app. right.
    apply list_elem_of_fmap. by exists k.
  - unfold Controller.on_message_received, message, play_effect_message. simpl.
    by rewrite !Hstr.
Qed.

(* ================================================================= *)
(** ** The effects of the controller *)

Lemma append_to_category_exhausted info effect categories c :
  Controller.append_to_category info effect categories = Controller.Exhausted ->
  Controller.info_get info "category" = Some c ->
  c ∉ map Controller.EffectsCategory.name categories.
Proof.
  intros Hex Hc. induction categories as [|cat rest IH]; [by apply not_elem_of_nil|].
  cbn [Controller.append_to_category] in Hex. rewrite Hc in Hex.
  destruct (String.eqb_spec (Controller.EffectsCategory.name cat) c) as [|Hne]; [done|].
  destruct (Controller.append_to_category info effect rest); try done.
  simpl. apply not_elem_of_cons. split; [congruence|]. by apply IH.
Qed.

Lemma append_to_category_appended info effect categories categories' c :
  Controller.append_to_category info effect categories = Controller.Appended categories' ->
  Controller.info_get info "category" = Some c ->
  filed_under c effect ->
  Forall well_filed categories ->
  map Controller.EffectsCategory.name categories' =
  map Controller.EffectsCategory.name categories /\
  Forall well_filed categories'.
Proof.
  intros Happ Hc Hfiled. revert categories' Happ.
  induction categories as [|cat rest IH]; intros categories' Happ Hall; [done|].
  cbn [Controller.append_to_category] in Happ. rewrite Hc in Happ.
  apply Forall_cons in Hall as [[Hne Hcat] Hrest].
  destruct (String.eqb_spec (Controller.EffectsCategory.name cat) c) as [Heq|Hneq].
  - injection Happ as <-. split; [done|]. constructor; [|done]. split; simpl.
    + by destruct (Controller.EffectsCategory.effects cat).
    + intros e He. apply elem_of_app in He as [He|He]; [by apply Hcat|].
      apply list_elem_of_singleton in He as ->. by rewrite Heq.
  - destruct (Controller.append_to_category info effect rest) as [rest'| |] eqn:E;
      try done.
    injection Happ as <-. destruct (IH rest' eq_refl Hrest) as [Hn Hf].
    split; [simpl; by rewrite Hn|]. by constructor.
Qed.

(** One script added: the names of the categories stay distinct and the
    categories well filed. *)
Lemma add_effect_keeps_filing info categories categories' module script_path lines :
  Controller.get_effect_info module = Some info ->
  Controller.add_effect_to_category info categories module script_path =
  (Return tt, categories', lines) ->
  NoDup (map Controller.EffectsCategory.name categories) ->
  Forall well_filed categories ->
  NoDup (map Controller.EffectsCategory.name categories') /\
  Forall well_filed categories'.
Proof.
  intros Hinfo Hadd Hnd Hall. unfold Controller.add_effect_to_category in Hadd.
  destruct (Controller.info_get info "name") as [n|] eqn:En;
    [|by injection Hadd as <- _].
  destruct (Controller.info_get info "description") as [d|] eqn:Ed;
    [|by injection Hadd as <- _].
  set (effect := {| Controller.Effect.name := n |}) in *.
  destruct (Controller.append_to_category info effect categories) as [cats| |] eqn:E.
  - injection Hadd as <- _.
    destruct (Controller.info_get info "category") as [c|] eqn:Ec.
    + assert (filed_under c effect) as Hf by (by exists info).
      destruct (append_to_category_appended _ _ _ _ c E Ec Hf Hall) as [Hn Hw].
      by rewrite Hn.
    + destruct categories; [done|]. cbn [Controller.append_to_category] in E.
      by rewrite Ec in E.
  - by injection Hadd as <- _.
  - destruct (Controller.info_get info "category") as [c|] eqn:Ec; [|done].
    injection Hadd as <- _.
    pose proof (append_to_category_exhausted _ _ _ c E Ec) as Hfresh.
    split.
    + rewrite map_app. simpl. apply NoDup_app. split; [done|]. split.
      * intros x Hx Hx'. apply list_elem_of_singleton in Hx' as ->. done.
      * apply NoDup_singleton.
    + apply Forall_app. split; [done|]. constructor; [|done]. split; [done|].
      simpl. intros e He. apply list_elem_of_singleton in He as ->. by exists info.
Qed.

Lemma gather_keeps_filing scripts : forall categories categories' lines,
  Controller.gather scripts categories = (Return categories', lines) ->
  NoDup (map Controller.EffectsCategory.name categories) ->
  Forall well_filed categories ->
  NoDup (map Controller.EffectsCategory.name categories') /\
  Forall well_filed categories'.
Proof.
  induction scripts as [|[script_path module] rest IH];
    intros categories categories' lines Hg Hnd Hall.
  - by injection Hg as <- _.
  - cbn [Controller.gather] in Hg.
    destruct (Controller.get_effect_info module) as [info|] eqn:Hinfo.
    + destruct (Controller.add_effect_to_category info categories module script_path)
        as [[[[]|e|] cats] ls] eqn:Ha; try done.
      destruct (add_effect_keeps_filing _ _ _ _ _ _ Hinfo Ha Hnd Hall) as [Hnd' Hall'].
      destruct (Controller.gather rest cats) as [r ls'] eqn:Hr.
      injection Hg as -> _. by eapply IH.
    + destruct (Controller.gather rest categories) as [r ls'] eqn:Hr.
      injection Hg as -> _. by eapply IH.
Qed.

(** X20.  The categories a scan of the scripts folder returns: no two
    of them have the same name, none is empty, and every effect sits in
    the category that the dict of its own script names, with the name
    and the description of that dict. *)
Theorem scanned_categories_are_well_filed
    (scripts : list (Controller.Path * Controller.ScriptModule))
    (categories : list Controller.EffectsCategory.t) (lines : list string) :
  Controller.get_categories_from_scripts_folder scripts = (Return categories, lines) ->
  NoDup (map Controller.EffectsCategory.name categories) /\
  Forall well_filed categories.
Proof.
  intros Hg. eapply gather_keeps_filing; [exact Hg|constructor|constructor].
Qed.

(** X21.  A script whose dict has a name and a description and no
    ["category"]: while there are categories already, the [KeyError] is
    raised inside the [try], the script is skipped with a log line and
    the categories stay as they are; when there is no category yet, the
    loop does not run, the key is first read after the [try] and the
    [KeyError] leaves the function, and with it the scan. *)
Theorem script_without_category (info : list (string * string))
    (module : Controller.ScriptModule) (script_path : Controller.Path)
    (rest : list (Controller.Path * Controller.ScriptModule)) :
  Controller.get_effect_info module = Some info ->
  Controller.info_get info "name" <> None ->
  Controller.info_get info "description" <> None ->
  Controller.info_get info "category" = None ->
  (forall category categories,
     Controller.add_effect_to_category info (category :: categories) module script_path =
     (Return tt, category :: categories, [Controller.skipped script_path])) /\
  Controller.add_effect_to_category info [] module script_path = (Raise KeyError, [], []) /\
  (Controller.get_categories_from_scripts_folder ((script_path, module) :: rest)).1 =
  Raise KeyError.
Proof.
  intros Hinfo Hn Hd Hc.
  destruct (Controller.info_get info "name") as [n|] eqn:En; [|done].
  destruct (Controller.info_get info "description") as [d|] eqn:Ed; [|done].
  assert (Controller.add_effect_to_category info [] module script_path =
          (Raise KeyError, [], [])) as Hempty.
  { unfold Controller.add_effect_to_category. by rewrite En, Ed, Hc. }
  split; [|split; [done|]].
  - intros category categories. unfold Controller.add_effect_to_category.
    rewrite En, Ed. cbn [Controller.append_to_category]. by rewrite Hc.
  - unfold Controller.get_categories_from_scripts_folder.
    cbn [Controller.gather]. by rewrite Hinfo, Hempty.
Qed.

Lemma find_effect_item_tree (effects : list Controller.Effect.t) (name : string) :
  Controller.find_effect_item
    (map (fun effect => Controller.Item (Some (Controller.Effect.name effect))
                                        (Some effect) []) effects) name =
  Some <$> first_named effects name.
Proof.
  induction effects as [|e rest IH]; [done|]. simpl.
  by destruct (String.eqb (Controller.Effect.name e) name).
Qed.

(** The lookup in the tree is the lookup in the categories it was set
    up from. *)
Lemma lookup_in_tree (categories : list Controller.EffectsCategory.t)
    (category name : string) :
  Controller.get_effect_by_category_and_name
    (Controller.setup_effects_tree categories) category name =
  first_in_categories categories category name.
Proof.
  unfold Controller.get_effect_by_category_and_name, Controller.setup_effects_tree.
  simpl. induction categories as [|cat rest IH]; [done|]. simpl.
  destruct (String.eqb (Controller.EffectsCategory.name cat) category); simpl; [|done].
  rewrite find_effect_item_tree.
  by destruct (first_named (Controller.EffectsCategory.effects cat) name).
Qed.

Lemma first_named_app effects effect name :
  first_named (effects ++ [effect]) name =
  match first_named effects name with
  | Some e => Some e
  | None => if String.eqb (Controller.Effect.name effect) name then Some effect else None
  end.
Proof.
  induction effects as [|e rest IH]; simpl; [done|].
  by destruct (String.eqb (Controller.Effect.name e) name).
Qed.

Lemma first_in_categories_absent categories category name :
  category ∉ map Controller.EffectsCategory.name categories ->
  first_in_categories categories category name = None.
Proof.
  induction categories as [|cat rest IH]; intros Hc; [done|]. simpl in *.
  apply not_elem_of_cons in Hc as [Hne Hc].
  destruct (String.eqb_spec (Controller.EffectsCategory.name cat) category); [done|].
  by apply IH.
Qed.

Lemma first_in_categories_app categories cat category name :
  first_in_categories (categories ++ [cat]) category name =
  match first_in_categories categories category name with
  | Some e => Some e
  | None => first_in_categories [cat] category name
  end.
Proof.
  induction categories as [|c rest IH];
    [simpl; by destruct (first_in_categories [cat] category name)|].
  simpl. destruct (String.eqb (Controller.EffectsCategory.name c) category); [|done].
  by destruct (first_named (Controller.EffectsCategory.effects c) name).
Qed.

(** X22.  Adding and finding.  After a script with name [n],
    description [d] and category [c] has been added to categories with
    distinct names, the tree set up from the result gives, for every
    category and name, the effect it gave before when there was one,
    the new effect when there was none and the category and name are
    [c] and [n], and nothing otherwise. *)
Theorem added_effect_is_found (info : list (string * string))
    (categories categories' : list Controller.EffectsCategory.t)
    (module : Controller.ScriptModule) (script_path : Controller.Path)
    (n d c : string) :
  Controller.info_get info "name" = Some n ->
  Controller.info_get info "description" = Some d ->
  Controller.info_get info "category" = Some c ->
  NoDup (map Controller.EffectsCategory.name categories) ->
  Controller.add_effect_to_category info categories module script_path =
  (Return tt, categories', []) ->
  let effect := {| Controller.Effect.name := n; Controller.Effect.description := d;
                   Controller.Effect.module := module;
                   Controller.Effect.script_path := script_path |} in
  forall category name,
    Controller.get_effect_by_category_and_name
      (Controller.setup_effects_tree categories') category name =
    match Controller.get_effect_by_category_and_name
            (Controller.setup_effects_tree categories) category name with
    | Some e => Some e
    | None => if String.eqb c category && String.eqb n name then Some effect else None
    end.
Proof.
  intros Hn Hd Hc Hnd Hadd effect category name.
  rewrite !lookup_in_tree.
  unfold Controller.add_effect_to_category in Hadd. rewrite Hn, Hd in Hadd.
  fold effect in Hadd.
  destruct (Controller.append_to_category info effect categories) as [cats| |] eqn:E.
  - injection Hadd as <-. clear Hn Hd.
    revert cats E Hnd. induction categories as [|cat rest IH]; intros cats E Hnd; [done|].
    cbn [Controller.append_to_category] in E. rewrite Hc in E.
    apply NoDup_cons in Hnd as [Hfresh Hnd].
    destruct (String.eqb_spec (Controller.EffectsCategory.name cat) c) as [Heq|Hneq].
    + injection E as <-. simpl. rewrite Heq.
      destruct (String.eqb_spec c category) as [<-|Hcat];
        [|by destruct (first_in_categories rest category name)].
      rewrite first_named_app. simpl.
      destruct (first_named (Controller.EffectsCategory.effects cat) name); [done|].
      rewrite first_in_categories_absent by (by rewrite <- Heq).
      by destruct (String.eqb n name).
    + destruct (Controller.append_to_category info effect rest) as [rest'| |] eqn:E';
        try done.
      injection E as <-. simpl.
      destruct (String.eqb_spec (Controller.EffectsCategory.name cat) category)
        as [Hcat|Hcat].
      * destruct (first_named (Controller.EffectsCategory.effects cat) name); [done|].
        by apply IH.
      * by apply IH.
  - done.
  - rewrite Hc in Hadd. injection Hadd as <-.
    rewrite first_in_categories_app. simpl.
    destruct (first_in_categories categories category name); [done|].
    destruct (String.eqb c category); [|done]. simpl.
    by destruct (String.eqb n name).
Qed.

Lemma first_named_none effects name :
  first_named effects name = None <->
  forall e, e ∈ effects -> Controller.Effect.name e <> name.
Proof.
  induction effects as [|e rest IH]; simpl.
  - split; [intros _ e He; by apply elem_of_nil in He|done].
  - destruct (String.eqb_spec (Controller.Effect.name e) name) as [Heq|Hne].
    + split; [done|]. intros H. by destruct (H e); [left|].
    + rewrite IH. split.
      * intros H x Hx. apply elem_of_cons in Hx as [->|Hx]; [done|by apply H].
      * intros H x Hx. apply H. by right.
Qed.

Lemma first_in_categories_none categories category name :
  first_in_categories categories category name = None <->
  forall cat e, cat ∈ categories ->
                Controller.EffectsCategory.name cat = category ->
                e ∈ Controller.EffectsCategory.effects cat ->
                Controller.Effect.name e <> name.
Proof.
  induction categories as [|cat rest IH]; simpl.
  - split; [intros _ c e Hc; by apply elem_of_nil in Hc|done].
  - destruct (String.eqb_spec (Controller.EffectsCategory.name cat) category) as [Heq|Hne].
    + destruct (first_named (Controller.EffectsCategory.effects cat) name) as [e|] eqn:E.
      * split; [done|]. intros H. exfalso.
        assert (first_named (Controller.EffectsCategory.effects cat) name = None) as E'.
        { apply first_named_none. intros x Hx. by apply (H cat x); [left| |]. }
        congruence.
      * rewrite IH. pose proof (proj1 (first_named_none _ _) E) as E'. split.
        -- intros H c x Hc Hn Hx. apply elem_of_cons in Hc as [->|Hc];
             [by apply E'|by eapply H].
        -- intros H c x Hc. apply H. by right.
    + rewrite IH. split.
      * intros H c x Hc Hn Hx. apply elem_of_cons in Hc as [->|Hc]; [done|by eapply H].
      * intros H c x Hc. apply H. by right.
Qed.

(** X23.  Running an effect by category and name on the tree set up
    from some categories: when a category of that name holds an effect
    of that name the call returns, whatever the script does (an
    exception raised by [run_effect] is caught and logged, a script
    without [run_effect] is logged); when none does, the lookup gives
    [None] and the call raises [AttributeError], having logged nothing. *)
Theorem run_effect_by_category_and_name_outcome
    (categories : list Controller.EffectsCategory.t) (category name : string) :
  let r := Controller.run_effect_by_category_and_name
             (Controller.setup_effects_tree categories) category name in
  ((exists cat e, cat ∈ categories /\
                  Controller.EffectsCategory.name cat = category /\
                  e ∈ Controller.EffectsCategory.effects cat /\
                  Controller.Effect.name e = name) ->
   r.1 = Return tt /\ r.2 <> []) /\
  ((forall cat e, cat ∈ categories ->
                  Controller.EffectsCategory.name cat = category ->
                  e ∈ Controller.EffectsCategory.effects cat ->
                  Controller.Effect.name e <> name) ->
   r = (Raise AttributeError, [])).
Proof.
  intros r. subst r. unfold Controller.run_effect_by_category_and_name.
  rewrite lookup_in_tree. split.
  - intros (cat & e & Hcat & Hc & He & Hn).
    destruct (first_in_categories categories category name) as [found|] eqn:E.
    + unfold Controller.run_effect_by_class.
      destruct (Controller.run_effect (Controller.Effect.module found)) as [[error|]|];
        by split.
    + exfalso. by eapply (proj1 (first_in_categories_none _ _ _) E).
  - intros Hnone. by rewrite (proj2 (first_in_categories_none _ _ _) Hnone).
Qed.

Lemma append_to_category_holds info effect categories categories' c :
  Controller.append_to_category info effect categories = Controller.Appended categories' ->
  Controller.info_get info "category" = Some c ->
  holds categories' c effect /\
  forall c' e', holds categories c' e' -> holds categories' c' e'.
Proof.
  intros Happ Hc. revert categories' Happ.
  induction categories as [|cat rest IH]; intros categories' Happ; [done|].
  cbn [Controller.append_to_category] in Happ. rewrite Hc in Happ.
  destruct (String.eqb_spec (Controller.EffectsCategory.name cat) c) as [Heq|Hneq].
  - injection Happ as <-. split.
    + eexists. split; [left|]. split; [done|]. simpl.
      apply elem_of_app. right. left.
    + intros c' e' (cat' & Hin & Hn & He).
      apply elem_of_cons in Hin as [->|Hin].
      * eexists. split; [left|]. split; [done|]. simpl. apply elem_of_app. by left.
      * exists cat'. split; [by right|done].
  - destruct (Controller.append_to_category info effect rest) as [rest'| |] eqn:E;
      try done.
    injection Happ as <-. destruct (IH rest' eq_refl) as [(cat' & Hin & Hn & He) Hmono].
    split.
    + exists cat'. split; [by right|done].
    + intros c' e' (cat'' & Hin' & Hn' & He').
      apply elem_of_cons in Hin' as [->|Hin'].
      * exists cat. split; [left|done].
      * destruct (Hmono c' e') as (x & Hx & Hxn & Hxe); [by exists cat''|].
        exists x. split; [by right|done].
Qed.

Lemma append_to_category_key info effect categories c :
  Controller.info_get info "category" = Some c ->
  Controller.append_to_category info effect categories <> Controller.MissingKey.
Proof.
  intros Hc. induction categories as [|cat rest IH]; [done|].
  cbn [Controller.append_to_category]. rewrite Hc.
  destruct (String.eqb _ _); [done|].
  by destruct (Controller.append_to_category info effect rest).
Qed.

Lemma add_effect_holds info categories categories' module script_path lines :
  Controller.add_effect_to_category info categories module script_path =
  (Return tt, categories', lines) ->
  (forall c' e', holds categories c' e' -> holds categories' c' e') /\
  forall n d c,
    Controller.info_get info "name" = Some n ->
    Controller.info_get info "description" = Some d ->
    Controller.info_get info "category" = Some c ->
    holds categories' c
      {| Controller.Effect.name := n; Controller.Effect.description := d;
         Controller.Effect.module := module; Controller.Effect.script_path := script_path |}.
Proof.
  intros Hadd. unfold Controller.add_effect_to_category in Hadd.
  destruct (Controller.info_get info "name") as [n|] eqn:En;
    [|injection Hadd as <- _; by split].
  destruct (Controller.info_get info "description") as [d|] eqn:Ed;
    [|injection Hadd as <- _; by split].
  set (effect := {| Controller.Effect.name := n |}) in *.
  destruct (Controller.append_to_category info effect categories) as [cats| |] eqn:E.
  - injection Hadd as <- _.
    destruct (Controller.info_get info "category") as [c|] eqn:Ec.
    + destruct (append_to_category_holds _ _ _ _ c E Ec) as [Hnew Hmono].
      split; [done|]. by intros n' d' c' [= <-] [= <-] [= <-].
    + destruct categories; [done|]. cbn [Controller.append_to_category] in E.
      by rewrite Ec in E.
  - injection Hadd as <- _. split; [done|]. intros n' d' c' _ _ Hc'.
    by destruct (append_to_category_key _ effect categories _ Hc').
  - destruct (Controller.info_get info "category") as [c|] eqn:Ec; [|done].
    injection Hadd as <- _. split.
    + intros c' e' (cat & Hin & Hn & He). exists cat. split; [|done].
      apply elem_of_app. by left.
    + intros n' d' c' [= <-] [= <-] [= <-]. eexists. split.
      * apply elem_of_app. right. left.
      * split; [done|]. left.
Qed.

Lemma gather_holds scripts : forall categories categories' lines,
  Controller.gather scripts categories = (Return categories', lines) ->
  (forall c e, holds categories c e -> holds categories' c e) /\
  forall script_path module info n d c,
    (script_path, module) ∈ scripts ->
    Controller.get_effect_info module = Some info ->
    Controller.info_get info "name" = Some n ->
    Controller.info_get info "description" = Some d ->
    Controller.info_get info "category" = Some c ->
    holds categories' c
      {| Controller.Effect.name := n; Controller.Effect.description := d;
         Controller.Effect.module := module; Controller.Effect.script_path := script_path |}.
Proof.
  induction scripts as [|[p m] rest IH]; intros categories categories' lines Hg.
  - injection Hg as <- _. split; [done|]. intros ? ? ? ? ? ? Hin.
    by apply elem_of_nil in Hin.
  - cbn [Controller.gather] in Hg.
    destruct (Controller.get_effect_info m) as [info|] eqn:Hinfo.
    + destruct (Controller.add_effect_to_category info categories m p)
        as [[[[]|e|] cats] ls] eqn:Ha; try done.
      destruct (add_effect_holds _ _ _ _ _ _ Ha) as [Hmono Hnew].
      destruct (Controller.gather rest cats) as [r ls'] eqn:Hr.
      injection Hg as -> _. destruct (IH _ _ _ Hr) as [Hmono' Hrest].
      split; [intros c e Hh; by apply Hmono', Hmono|].
      intros script_path module info' n d c Hin Hi Hn Hd Hc.
      apply elem_of_cons in Hin as [[= -> ->]|Hin].
      * rewrite Hinfo in Hi. injection Hi as <-. apply Hmono'. by apply Hnew.
      * by eapply Hrest.
    + destruct (Controller.gather rest categories) as [r ls'] eqn:Hr.
      injection Hg as -> _. destruct (IH _ _ _ Hr) as [Hmono' Hrest].
      split; [done|].
      intros script_path module info' n d c Hin Hi Hn Hd Hc.
      apply elem_of_cons in Hin as [[= -> ->]|Hin]; [congruence|].
      by eapply Hrest.
Qed.

(** X24.  Nothing is lost in a scan that returns: every script of the
    folder whose dict has a name, a description and a category has its
    effect, made of that name and description, the module and the path
    of the script, in a category of the name its dict gives. *)
Theorem every_script_is_filed
    (scripts : list (Controller.Path * Controller.ScriptModule))
    (categories : list Controller.EffectsCategory.t) (lines : list string)
    (script_path : Controller.Path) (module : Controller.ScriptModule)
    (info : list (string * string)) (n d c : string) :
  Controller.get_categories_from_scripts_folder scripts = (Return categories, lines) ->
  (script_path, module) ∈ scripts ->
  Controller.get_effect_info module = Some info ->
  Controller.info_get info "name" = Some n ->
  Controller.info_get info "description" = Some d ->
  Controller.info_get info "category" = Some c ->
  exists cat,
    cat ∈ categories /\
    Controller.EffectsCategory.name cat = c /\
    {| Controller.Effect.name := n; Controller.Effect.description := d;
       Controller.Effect.module := module; Controller.Effect.script_path := script_path |}
    ∈ Controller.EffectsCategory.effects cat.
Proof.
  intros Hg Hin Hi Hn Hd Hc.
  destruct (gather_holds _ _ _ _ Hg) as [_ H]. by eapply H.
Qed.

(** X25.  The address the controller opens is the server URL followed
    by the path [/?token=$<token>]; when [?token=$] does not occur in
    the token, [process_request] on that path lets the handshake go on
    for a server configured with this token and answers with the
    unauthorized response for a server configured with another. *)
Theorem controller_with_the_token_is_admitted (server_url token : string)
    (h : Controller.WebsocketHandler) :
  contains token "?token=$" = false ->
  exists path,
    Controller.opened (Controller.connect_to_server server_url token h) =
    Controller.opened h ++ [server_url +:+ path] /\
    process_request token path = Return None /\
    forall TOKEN, TOKEN <> token ->
      process_request TOKEN path =
      Return (Some (UNAUTHORIZED, [], "Invalid or missing token" +:+ newline)).
Proof.
  intros Htoken. exists ("/?token=$" +:+ token). split; [done|].
  assert (split ("/?token=$" +:+ token) "?token=$" = ["/"; token]) as Hs.
  { unfold split.
    change ("/?token=$" +:+ token) with ("/" +:+ "?token=$" +:+ token).
    by rewrite split_from_token. }
  unfold process_request. rewrite Hs. simpl. split.
  - by rewrite String.eqb_refl.
  - intros TOKEN Hne. by rewrite (proj2 (String.eqb_neq token TOKEN)).
Qed.

(* ================================================================= *)
(** ** The properties on the stage *)

(** Goes through the sessions of a concrete registry. *)
Ltac each_session H :=
  simpl in H;
  repeat (apply elem_of_cons in H as [->|H]);
  [..|by apply elem_of_nil in H].

Ltac open_transport := vm_compute; let H := fresh in intros H; inversion H.

Ltac distinct_sessions := compute_done.

(** The roster of the stage has its three sessions. *)
Lemma roster_is_the_registry_stage :
  exists roster,
    send_connected_clients_to_controller stage =
    (Return tt, add_wire stage [(1, connected_clients_frame roster)]) /\
    length roster = 3.
Proof.
  destruct (roster_is_the_registry stage 1) as (roster & Hsend & Hlen & _).
  - reflexivity.
  - open_transport.
  - intros c Hin. each_session Hin; vm_compute; discriminate.
  - exists roster. split; [exact Hsend | exact Hlen].
Defined.

(** The tablet asks for rain; the desk, the tablet and the fogger get
    the message. *)
Lemma relay_reaches_everyone_stage :
  handle_message 2 (play_effect_message "Weather" "Rain") stage =
  (Return tt,
   add_wire stage [(1, play_effect_message "Weather" "Rain");
                   (2, play_effect_message "Weather" "Rain");
                   (3, play_effect_message "Weather" "Rain")]).
Proof.
  apply (relay_reaches_everyone stage 2 _ (JStr "play_effect")).
  - reflexivity.
  - discriminate.
  - discriminate.
  - discriminate.
  - intros c _. open_transport.
Defined.

(** Two rounds of heartbeats for the audience, five seconds apart. *)
Lemma heartbeat_rounds_open_audience :
  send_heartbeat_to_all_clients 2 5 audience =
  (Return tt,
   with_clock
     (add_wire audience [(1, heartbeat_frame); (2, heartbeat_frame); (3, heartbeat_frame);
                         (1, heartbeat_frame); (2, heartbeat_frame); (3, heartbeat_frame)])
     10).
Proof.
  apply (heartbeat_rounds_open 2 5 audience).
  intros c _. open_transport.
Defined.

(** Both apps of the audience die; two rounds leave the fogger. *)
Lemma dead_sessions_are_evicted_audience :
  let r := send_heartbeat_to_all_clients 2 5 (transport_dies 2 (transport_dies 1 audience)) in
  r.1 = Return tt /\ clients_of r.2 = [3] /\ now r.2 = 10.
Proof.
  destruct (dead_sessions_are_evicted 2 5 (transport_dies 2 (transport_dies 1 audience)))
    as (Hr & Hl & _ & Hn).
  - distinct_sessions.
  - exact I.
  - vm_compute. lia.
  - split; [exact Hr|]. split; [exact Hl | exact Hn].
Defined.

(** The tablet leaves the stage. *)
Lemma connection_closed_removes_session_stage :
  (websocket_connection_handler 2 Gone stage).1 = Return Ended.
Proof.
  destruct (connection_closed_removes_session stage 2) as (l & frames & Hl & _ & _ & _ & Hh).
  - vm_compute. right. left.
  - apply Hh. injection Hl as <-. split.
    + open_transport.
    + intros c Hin. each_session Hin; vm_compute; discriminate.
Defined.

(** The tablet sends a list. *)
Lemma message_without_type_ends_session_stage :
  handle_message 2 (JList []) stage = (Raise TypeError, stage) /\
  exists e, (websocket_connection_handler 2 (Message (JList [])) stage).1 = Raise e.
Proof.
  destruct (message_without_type_ends_session stage 2 (JList []) TypeError)
    as (Hm & _ & He & _).
  - reflexivity.
  - vm_compute. right. left.
  - split; [exact Hm | exact He].
Defined.

(** A fourth session connects to the stage and is lost. *)
Lemma accept_then_close_stage :
  let r := (accept 4 ;;; websocket_connection_handler 4 Gone) stage in
  clients_of r.2 = [1; 2; 3] /\ controller_of r.2 = Some 1.
Proof.
  destruct (accept_then_close stage 4) as (Hl & Hc & _).
  - compute_done.
  - discriminate.
  - split; [exact Hl | exact Hc].
Defined.

(** The desk of the stage authenticates again, as an app. *)
Lemma authentication_sets_role_stage :
  let w := (handle_message 1 (authentication_message "app" "phone") stage).2 in
  client_of w 1 = {| type := Some MeffecClientType.APP; name := JStr "phone" |} /\
  controller_of w = Some 1.
Proof.
  destruct (authentication_sets_role stage 1 (authentication_message "app" "phone")
              (JStr "app") (JStr "phone") MeffecClientType.APP)
    as (Ho & _ & _ & _ & Hc).
  - eexists. repeat split; reflexivity.
  - reflexivity.
  - split; [exact Ho | exact Hc].
Defined.

(** The tablet authenticates as a controller and gives no name. *)
Lemma authentication_without_name_stage :
  handle_message 2
    (JObj [("type", JStr "authentication");
           ("data", JObj [("type", JStr "controller")])]) stage =
  (Raise KeyError,
   with_client stage 2
     {| type := Some MeffecClientType.CONTROLLER; name := JStr "tablet" |}).
Proof.
  apply (authentication_without_name stage 2 _
           (JObj [("type", JStr "controller")]) (JStr "controller") KeyError).
  - split; reflexivity.
  - reflexivity.
  - reflexivity.
Defined.

(** The fogger of the audience authenticates as an app. *)
Lemma app_gets_catalog_on_authentication_audience :
  exists frames,
    wire (handle_message 3 (authentication_message "app" "phone") audience).2 =
    (3, available_effects_frame (JObj [])) :: frames.
Proof.
  destruct (app_gets_catalog_on_authentication audience 3
              (authentication_message "app" "phone") (JStr "phone"))
    as (frames & Hw & _).
  - eexists. repeat split; reflexivity.
  - open_transport.
  - exists frames. rewrite Hw. reflexivity.
Defined.

(** The path the controller asks for, with the right token and with a
    wrong one. *)
Lemma token_in_path_decides_controller :
  process_request "s3cret" "/?token=$s3cret" = Return None /\
  process_request "s3cret" "/?token=$guess" =
  Return (Some (UNAUTHORIZED, [], "Invalid or missing token" +:+ newline)).
Proof.
  pose proof (token_in_path_decides "s3cret" "/" "s3cret" eq_refl eq_refl) as Hright.
  pose proof (token_in_path_decides "s3cret" "/" "guess" eq_refl eq_refl) as Hwrong.
  rewrite decide_True in Hright by done.
  rewrite decide_False in Hwrong by done.
  split; [exact Hright | exact Hwrong].
Defined.

(** The desk of the stage has died: the relay removes it and steps over
    the tablet, which sent the message. *)
Lemma relay_steps_over_sessions_stage :
  handle_message 2 (play_effect_message "Weather" "Rain") (transport_dies 1 stage) =
  (Return tt,
   add_wire (with_clients (transport_dies 1 stage) [2; 3])
            [(3, play_effect_message "Weather" "Rain")]).
Proof.
  rewrite (relay_steps_over_sessions (transport_dies 1 stage) 2 _ (JStr "play_effect")).
  - reflexivity.
  - reflexivity.
  - discriminate.
  - discriminate.
  - discriminate.
  - distinct_sessions.
Defined.

(** The desk reads the roster of the stage. *)
Lemma roster_reaches_the_operator_stage :
  exists frame,
    send_connected_clients_to_controller stage = (Return tt, add_wire stage [(1, frame)]) /\
    Controller.signals (Controller.on_message_received str_only frame desk).2 =
    [Controller.connected_clients_received
       [{| Controller.ConnectedMeffecClient.type := JStr "controller";
           Controller.ConnectedMeffecClient.name := JStr "desk" |};
        {| Controller.ConnectedMeffecClient.type := JStr "app";
           Controller.ConnectedMeffecClient.name := JStr "tablet" |};
        {| Controller.ConnectedMeffecClient.type := JStr "device";
           Controller.ConnectedMeffecClient.name := JStr "fogger" |}]].
Proof.
  destruct (roster_reaches_the_operator str_only stage 1 desk) as (frame & names & Hs & Hm).
  - reflexivity.
  - open_transport.
  - intros c Hin. each_session Hin; vm_compute; discriminate.
  - intros c Hin. each_session Hin; eexists; reflexivity.
  - exists frame. split; [exact Hs|]. rewrite Hm. reflexivity.
Defined.

(** The desk reads the roster of the stage whose fogger is named [7]. *)
Lemma roster_with_a_name_that_is_no_string_stage :
  exists frame,
    send_connected_clients_to_controller numbered_stage =
    (Return tt, add_wire numbered_stage [(1, frame)]) /\
    Controller.on_message_received str_only frame desk = (Raise TypeError, desk).
Proof.
  apply (roster_with_a_name_that_is_no_string str_only numbered_stage 1 3 desk).
  - reflexivity.
  - open_transport.
  - intros c Hin. each_session Hin; vm_compute; discriminate.
  - vm_compute. right. right. left.
  - intros s. vm_compute. discriminate.
Defined.

(** The desk sends its one category to the stage. *)
Lemma catalog_reaches_the_server_stage :
  exists message,
    Controller.outbox (Controller.send_effects_to_server animals desk) = [message] /\
    effects_of (handle_message 1 message stage).2 =
    JList [JObj [("name", JStr "Animals");
                 ("effects", JList [JObj [("name", JStr "Owl");
                                          ("description", JStr "An owl at night")]])]].
Proof.
  destruct (catalog_reaches_the_server animals desk stage 1) as [_ Hconnected].
  destruct (Hconnected eq_refl) as (message & Ho & He & _).
  exists message. split; [exact Ho | exact He].
Defined.

(** The desk switches the fogger on; the strobe is told as well. *)
Lemma device_action_reaches_the_devices_stage :
  exists message,
    Controller.outbox
      (Controller.send_device_action
         {| Controller.DeviceAction.device := "fogger";
            Controller.DeviceAction.data := JStr "on" |} desk) = [message] /\
    wire (handle_message 1 message two_devices).2 =
    [(2, device_action_frame (JStr "on")); (3, device_action_frame (JStr "on"))].
Proof.
  destruct (device_action_reaches_the_devices
              {| Controller.DeviceAction.device := "fogger";
                 Controller.DeviceAction.data := JStr "on" |} desk two_devices 1)
    as (message & Ho & Hm).
  - reflexivity.
  - intros c _ _. open_transport.
  - exists message. split; [exact Ho|]. rewrite Hm. reflexivity.
Defined.


(** The tablet of the stage asks for rain, and the desk hears it. *)
Lemma play_effect_reaches_the_operator_stage :
  (1, play_effect_message "Weather" "Rain") ∈
    wire (handle_message 2 (play_effect_message "Weather" "Rain") stage).2 /\
  Controller.on_message_received str_only (play_effect_message "Weather" "Rain") desk =
  (Return tt, Controller.emit (Controller.play_effect_received "Weather" "Rain") desk).
Proof.
  apply (play_effect_reaches_the_operator str_only stage 2 1 "Weather" "Rain" desk).
  - reflexivity.
  - intros c _. open_transport.
  - vm_compute. left.
Defined.

(** The scan of the folder with the rain, the owl and the storm. *)
Lemma scanned_categories_are_well_filed_folder :
  exists categories lines,
    Controller.get_categories_from_scripts_folder folder = (Return categories, lines) /\
    NoDup (map Controller.EffectsCategory.name categories) /\
    Forall well_filed categories.
Proof.
  destruct (Controller.get_categories_from_scripts_folder folder)
    as [[categories|e|] lines] eqn:E; [|vm_compute in E; discriminate..].
  exists categories, lines. split; [reflexivity|].
  exact (scanned_categories_are_well_filed folder categories lines E).
Defined.

(** A script without a category comes first in the folder. *)
Lemma script_without_category_first :
  (Controller.get_categories_from_scripts_folder
     (script "fog" [("name", "Fog"); ("description", "Fog from the left")] :: folder)).1 =
  Raise KeyError.
Proof.
  destruct (script_without_category
              [("name", "Fog"); ("description", "Fog from the left")]
              (script "fog" [("name", "Fog"); ("description", "Fog from the left")]).2
              (script "fog" [("name", "Fog"); ("description", "Fog from the left")]).1
              folder) as (_ & _ & Hscan).
  - reflexivity.
  - discriminate.
  - discriminate.
  - reflexivity.
  - exact Hscan.
Defined.

(** The rain is added to the animals and found under the weather. *)
Lemma added_effect_is_found_rain :
  exists categories effect,
    Controller.add_effect_to_category (effect_info "Rain" "Rain on the roof" "Weather")
      animals (script "rain" []).2 (script "rain" []).1 = (Return tt, categories, []) /\
    Controller.get_effect_by_category_and_name
      (Controller.setup_effects_tree categories) "Weather" "Rain" = Some effect /\
    Controller.Effect.description effect = "Rain on the roof".
Proof.
  destruct (Controller.add_effect_to_category (effect_info "Rain" "Rain on the roof" "Weather")
              animals (script "rain" []).2 (script "rain" []).1)
    as [[r categories] lines] eqn:E.
  assert (r = Return tt /\ lines = []) as [-> ->]
    by (vm_compute in E; injection E as <- _ <-; done).
  exists categories. eexists. split; [reflexivity|].
  rewrite (added_effect_is_found (effect_info "Rain" "Rain on the roof" "Weather")
             animals categories (script "rain" []).2 (script "rain" []).1
             "Rain" "Rain on the roof" "Weather");
    [|reflexivity|reflexivity|reflexivity|compute_done|exact E].
  split; reflexivity.
Defined.

(** Snow is asked of the animals. *)
Lemma run_effect_by_category_and_name_outcome_snow :
  Controller.run_effect_by_category_and_name
    (Controller.setup_effects_tree animals) "Weather" "Snow" =
  (Raise AttributeError, []).
Proof.
  apply (proj2 (run_effect_by_category_and_name_outcome animals "Weather" "Snow")).
  intros cat e Hin Hname. each_session Hin. discriminate.
Defined.

(** The storm of the folder is filed under the weather. *)
Lemma every_script_is_filed_storm :
  exists categories lines cat e,
    Controller.get_categories_from_scripts_folder folder = (Return categories, lines) /\
    cat ∈ categories /\
    Controller.EffectsCategory.name cat = "Weather" /\
    e ∈ Controller.EffectsCategory.effects cat /\
    Controller.Effect.name e = "Storm".
Proof.
  destruct (Controller.get_categories_from_scripts_folder folder)
    as [[categories|e|] lines] eqn:E; [|vm_compute in E; discriminate..].
  destruct (every_script_is_filed folder categories lines
              (script "storm" (effect_info "Storm" "Thunder far away" "Weather")).1
              (script "storm" (effect_info "Storm" "Thunder far away" "Weather")).2
              (effect_info "Storm" "Thunder far away" "Weather")
              "Storm" "Thunder far away" "Weather" E)
    as (cat & Hin & Hname & He).
  - vm_compute. right. right. left.
  - reflexivity.
  - reflexivity.
  - reflexivity.
  - reflexivity.
  - exists categories, lines, cat. eexists.
    split; [reflexivity|]. split; [exact Hin|]. split; [exact Hname|].
    split; [exact He | reflexivity].
Defined.

(** The controller of a local server. *)
Lemma controller_with_the_token_is_admitted_local :
  exists path,
    Controller.opened (Controller.connect_to_server "ws://localhost:8765" "s3cret" desk) =
    ["ws://localhost:8765" +:+ path] /\
    process_request "s3cret" path = Return None.
Proof.
  destruct (controller_with_the_token_is_admitted "ws://localhost:8765" "s3cret" desk eq_refl)
    as (path & Ho & Hp & _).
  exists path. split; [exact Ho | exact Hp].
Defined.

(** A device action named for the fogger reaches the strobe as well. *)
Lemma device_frames_stop_at_a_dead_device_stage :
  handle_message 1 (device_action_message "fogger" (JStr "on")) two_devices =
  (Return tt,
   add_wire two_devices [(2, device_action_frame (JStr "on"));
                         (3, device_action_frame (JStr "on"))]).
Proof.
  destruct (device_frames_stop_at_a_dead_device two_devices 1
              (device_action_message "fogger" (JStr "on")) (JStr "fogger") (JStr "on"))
    as [Hm _].
  - eexists. repeat split; reflexivity.
  - rewrite Hm. reflexivity.
Defined.

(** A catalog reaches both apps. *)
Lemma catalog_frames_stop_at_a_dead_app_stage :
  handle_message 1 (available_effects_message (JList [JStr "rain"])) two_apps =
  (Return tt,
   add_wire (with_catalog two_apps (JList [JStr "rain"]))
            [(2, available_effects_frame (JList [JStr "rain"]));
             (3, available_effects_frame (JList [JStr "rain"]))]).
Proof.
  destruct (catalog_frames_stop_at_a_dead_app two_apps 1
              (available_effects_message (JList [JStr "rain"])) (JList [JStr "rain"]))
    as [Hm _].
  - eexists. repeat split; reflexivity.
  - rewrite Hm. reflexivity.
Defined.

(** The two apps of the audience authenticate as controllers, [1] and
    then [2]. *)
Lemma last_controller_wins_when_handled_audience :
  let first :=
    websocket_connection_handler 1
      (Message (authentication_message "controller" "desk")) audience in
  let second :=
    websocket_connection_handler 2
      (Message (authentication_message "controller" "spare")) first.2 in
  controller_of second.2 = Some 2 /\ 1 ∈ clients_of second.2.
Proof.
  intros first second.
  assert (1 <> 2) as Hne by lia.
  assert (1 ∈ clients_of audience) as Hin by (vm_compute; left).
  assert (authentication (authentication_message "controller" "desk")
                         (JStr "controller") (JStr "desk")) as HA
    by (eexists; repeat split; reflexivity).
  assert (authentication (authentication_message "controller" "spare")
                         (JStr "controller") (JStr "spare")) as HB
    by (eexists; repeat split; reflexivity).
  destruct (last_controller_wins_when_handled audience 1 2 _ _ _ _ Hne Hin HA HB
              eq_refl eq_refl) as (Hc & _ & _ & HinA & _).
  split; [exact Hc | exact HinA].
Defined.
